(** * CRM lead backend: the scoring pipeline and the lead store

    A shallow embedding of [main.py], [models.py] and [database.py].

    Text is held as [string]: one [ascii] per character, read as the
    character's code point (the code points below 256).  Whitespace, digits
    and lower-casing follow what Python's [str] methods do on those code
    points.  Integers are [Z].  The table of leads is a finite map from the
    primary key to the row.  What the program obtains from outside (the
    HTTP fetch and HTML parse, the model call, the commit of the session,
    the parsed CSV) is passed in as the outcome it had, an error message or
    a value. *)

From Stdlib Require Import ZArith Lia Ascii String List Bool.
From Stdlib Require Import DecimalString.
From stdpp Require Import base option list gmap fin_maps strings.

Local Open Scope Z_scope.

(** ** Python string primitives *)

Module Py.

Import String.
Local Open Scope string_scope.
Local Open Scope nat_scope.

Definition code (c : ascii) : nat := nat_of_ascii c.

(** [str.isspace] on one character: tab to carriage return, the four
    separators 0x1c-0x1f, space, NEL and the no-break space. *)
Definition is_space (c : ascii) : bool :=
  let n := code c in
  ((9 <=? n) && (n <=? 13)) || ((28 <=? n) && (n <=? 32))
  || (n =? 133) || (n =? 160).

(** The class [\d] of the [re] module. *)
Definition is_digit (c : ascii) : bool :=
  let n := code c in (48 <=? n) && (n <=? 57).

Definition lower_char (c : ascii) : ascii :=
  let n := code c in
  if ((65 <=? n) && (n <=? 90))
     || ((192 <=? n) && (n <=? 222) && negb (n =? 215))
  then ascii_of_nat (n + 32) else c.

(** [s.lower()] *)
Fixpoint lower (s : string) : string :=
  match s with
  | EmptyString => EmptyString
  | String c s' => String (lower_char c) (lower s')
  end.

(** [s.startswith(p)] *)
Fixpoint startswith (p s : string) : bool :=
  match p, s with
  | EmptyString, _ => true
  | String a p', String b s' => Ascii.eqb a b && startswith p' s'
  | String _ _, EmptyString => false
  end.

(** [s[:n]] *)
Fixpoint take (n : nat) (s : string) : string :=
  match n, s with
  | S k, String c s' => String c (take k s')
  | _, _ => EmptyString
  end.

(** [s[n:]] *)
Fixpoint drop (n : nat) (s : string) : string :=
  match n, s with
  | S k, String _ s' => drop k s'
  | _, _ => s
  end.

Fixpoint lstrip (s : string) : string :=
  match s with
  | String c s' => if is_space c then lstrip s' else s
  | EmptyString => EmptyString
  end.

Fixpoint rstrip (s : string) : string :=
  match s with
  | EmptyString => EmptyString
  | String c s' =>
      match rstrip s' with
      | EmptyString => if is_space c then EmptyString else String c EmptyString
      | r => String c r
      end
  end.

(** [s.strip()] *)
Definition strip (s : string) : string := rstrip (lstrip s).

(** [s.split(sep)] for a separator of one character: never empty. *)
Fixpoint split (sep : ascii) (s : string) : list string :=
  match s with
  | EmptyString => [EmptyString]
  | String c s' =>
      if Ascii.eqb c sep then EmptyString :: split sep s'
      else match split sep s' with
           | h :: t => String c h :: t
           | [] => [String c EmptyString]
           end
  end.

Definition head_is (p : ascii -> bool) (s : string) : bool :=
  match s with
  | String c _ => p c
  | EmptyString => false
  end.

(** The maximal runs of characters that satisfy [p], left to right. *)
Fixpoint runs (p : ascii -> bool) (s : string) : list string :=
  match s with
  | EmptyString => []
  | String c s' =>
      if p c then
        if head_is p s' then
          match runs p s' with
          | r :: rs => String c r :: rs
          | [] => [String c EmptyString]
          end
        else String c EmptyString :: runs p s'
      else runs p s'
  end.

(** [s.split()]: the words between runs of whitespace. *)
Definition split_ws (s : string) : list string :=
  runs (fun c => negb (is_space c)) s.

(** [re.findall(r'\d+', s)] *)
Definition findall_digits (s : string) : list string := runs is_digit s.

(** [sep.join(l)] *)
Fixpoint join (sep : string) (l : list string) : string :=
  match l with
  | [] => EmptyString
  | [x] => x
  | x :: l' => x +:+ sep +:+ join sep l'
  end.

(** [' '.join(s.split())] *)
Definition collapse (s : string) : string := join " " (split_ws s).

(** The value of [int(s)] on a run of decimal digits.  The interpreter
    raises [ValueError] on a run of more than 4300 digits
    ([Shape.max_str_digits]); the function is total, and the theorems
    that promise a number from a given run take the limit as a
    hypothesis. *)
Fixpoint int_digits (acc : Z) (s : string) : Z :=
  match s with
  | EmptyString => acc
  | String c s' => int_digits (10 * acc + Z.of_nat (code c - 48))%Z s'
  end.

Definition int (s : string) : Z := int_digits 0%Z s.

(** [s.replace(old, new)] for a non-empty [old]: occurrences are taken
    left to right and do not overlap.  [skip] counts the characters of an
    occurrence that are still to be passed over. *)
Fixpoint replace_from (old new : string) (skip : nat) (s : string) : string :=
  match s with
  | EmptyString => EmptyString
  | String c s' =>
      match skip with
      | S k => replace_from old new k s'
      | O =>
          if startswith old s
          then new +:+ replace_from old new (String.length old - 1) s'
          else String c (replace_from old new 0 s')
      end
  end.

(** With an empty [old], Python puts [new] before every character and at
    the end. *)
Fixpoint intersperse (new s : string) : string :=
  match s with
  | EmptyString => new
  | String c s' => new +:+ String c (intersperse new s')
  end.

Definition replace (old new s : string) : string :=
  match old with
  | EmptyString => intersperse new s
  | _ => replace_from old new 0 s
  end.

(** [sub in s] *)
Fixpoint str_in (sub s : string) : bool :=
  startswith sub s ||
  match s with
  | EmptyString => false
  | String _ s' => str_in sub s'
  end.

(** Truthiness of a string. *)
Definition nonempty (s : string) : bool :=
  match s with EmptyString => false | _ => true end.

(** [str(n)] for an integer. *)
Definition str_of_Z (n : Z) : string := NilEmpty.string_of_int (Z.to_int n).

(** [s.endswith(suf)] *)
Definition endswith (suf s : string) : bool :=
  (String.length suf <=? String.length s)
  && String.eqb (drop (String.length s - String.length suf) s) suf.

Definition newline : ascii := ascii_of_nat 10.
Definition dquote : string := String (ascii_of_nat 34) EmptyString.

(** A text given line by line, as a triple-quoted literal holds it. *)
Definition text_of (lines : list string) : string :=
  join (String newline EmptyString) lines.

End Py.

Import Py.


Local Open Scope string_scope.

(** ** Exceptions

    A computation that may raise carries the text of the exception,
    [str(e)], on the left. *)

Definition exc (A : Type) : Type := (string + A)%type.

#[global] Instance exc_ret : MRet exc := fun A (a : A) => inr a.

#[global] Instance exc_bind : MBind exc := fun A B (k : A -> exc B) (m : exc A) =>
  match m with
  | inl e => inl e
  | inr a => k a
  end.

Definition raise {A} (e : string) : exc A := inl e.

(** [try: body / except ...: handler] *)
Definition try_except {A} (body : exc A) (handler : string -> A) : A :=
  match body with
  | inl e => handler e
  | inr a => a
  end.

(** [l[i]], an [IndexError] when out of range. *)
Definition index {A} (l : list A) (i : nat) : exc A :=
  match l !! i with
  | Some a => mret a
  | None => raise "list index out of range"
  end.

(** ** The lead record ([models.py])

    The columns that [models.py] declares [nullable=True] are options; the
    primary key is the key of the table. *)

Record Lead := {
  company_name : string;
  industry : string;
  location : string;
  contact_name : string;
  contact_email : string;
  contact_phone : string;
  revenue : option string;
  employees : option string;
  website : option string;
  notes : option string;
  ai_score : option Z;
  ai_justification : option string;
  ai_next_action : option string
}.

(** ** Website summarizer ([fetch_website_content]) *)

Module Web.

(** What the request and the HTML parse leave in the local variables
    [text], [title], [meta_desc] and [key_sections] when nothing raised. *)
Record scraped := {
  sc_text : string;
  sc_title : option string;
  sc_meta_desc : string;
  sc_key_sections : list string
}.

Record summary := {
  title : string;
  meta_description : string;
  key_sections : string;
  full_text_sample : string;
  has_content : bool;
  url_analyzed : string
}.

(** The two dictionaries the function returns; [None] is Python's. *)
Inductive website_analysis :=
| Summary (s : summary)
| Failure (error : string) (url : string).

(** The fetch and parse of a URL: the exception raised, or the scrape. *)
Definition fetcher := string -> exc scraped.

Definition normalize_url (url : string) : string :=
  if startswith "http://" url || startswith "https://" url then url
  else "https://" +:+ url.

Definition summarize (url : string) (sc : scraped) : summary :=
  {| title := match sc_title sc with
              | Some t => if nonempty t then take 200 t else ""
              | None => ""
              end;
     meta_description :=
       if nonempty (sc_meta_desc sc) then take 300 (sc_meta_desc sc) else "";
     key_sections := take 1000 (join " " (sc_key_sections sc));
     full_text_sample := take 1500 (sc_text sc);
     has_content := (100 <? String.length (sc_text sc))%nat;
     url_analyzed := url |}.

Definition fetch_website_content (fetch : fetcher) (url : option string)
  : option website_analysis :=
  match url with
  | None => None
  | Some url =>
      if negb (nonempty url) || String.eqb url "nan" || String.eqb url ""
      then None
      else
        let url := normalize_url url in
        Some (try_except
                (sc ← fetch url; mret (Summary (summarize url sc)))
                (fun e => Failure ("Could not fetch website: " +:+ e) url))
  end.

End Web.

(** ** Email analyzer ([analyze_email_domain]) *)

Module Email.

Definition generic_domains : list string :=
  ["gmail.com"; "yahoo.com"; "hotmail.com"; "outlook.com"; "aol.com"].

(** [x in l] for a list of strings. *)
Definition mem (x : string) (l : list string) : bool :=
  existsb (String.eqb x) l.

(** The guard [s and s != 'nan' and s != ''] on an argument: the text
    when it passes. *)
Definition given (s : option string) : option string :=
  match s with
  | Some s => if nonempty s && negb (String.eqb s "nan") && negb (String.eqb s "")
              then Some s else None
  | None => None
  end.

(** The body of the [try]. *)
Definition analyze_body (email : string) (website : option string) : exc string :=
  part ← index (split "@" email) 1;
  let email_domain := lower part in
  if mem email_domain generic_domains then
    mret ("Generic email domain (" +:+ email_domain +:+ ") - less professional")
  else
    match given website with
    | Some website =>
        host ← index (split "/"
          (replace "www." "" (replace "https://" "" (replace "http://" "" website)))) 0;
        let website_clean := lower host in
        if str_in email_domain website_clean || str_in website_clean email_domain
        then mret ("Professional email - domain matches website (" +:+ email_domain +:+ ")")
        else mret ("Email domain (" +:+ email_domain +:+ ") doesn't match website")
    | None => mret ("Professional email domain (" +:+ email_domain +:+ ")")
    end.

Definition analyze_email_domain (email website : option string) : string :=
  match given email with
  | None => "No email provided"
  | Some email => try_except (analyze_body email website) (fun _ => "Invalid email format")
  end.

End Email.

(** ** Response parser (the parsing block of [score_lead]) *)

Module Parser.

Record scan_state := {
  st_score : option Z;
  st_justification : string;
  st_next_action : string
}.

Definition initial : scan_state :=
  {| st_score := None; st_justification := ""; st_next_action := "" |}.

(** The inner loop after a [JUSTIFICATION:] line, with its [break]. *)
Fixpoint absorb_until_next_action (acc : string) (ls : list string) : string :=
  match ls with
  | [] => acc
  | next_line :: ls' =>
      if startswith "NEXT_ACTION:" next_line then acc
      else absorb_until_next_action (acc +:+ " " +:+ strip next_line) ls'
  end.

(** The inner loop after a [NEXT_ACTION:] line. *)
Fixpoint absorb_all (acc : string) (ls : list string) : string :=
  match ls with
  | [] => acc
  | next_line :: ls' => absorb_all (acc +:+ " " +:+ strip next_line) ls'
  end.

(** One turn of the outer loop: [line] is [lines[i]], [rest] is
    [lines[i+1:]]. *)
Definition scan_line (line : string) (rest : list string) (st : scan_state)
  : scan_state :=
  if startswith "SCORE:" line then
    let score_text := strip (replace "SCORE:" "" line) in
    match findall_digits score_text with
    | n :: _ => {| st_score := Some (int n);
                   st_justification := st_justification st;
                   st_next_action := st_next_action st |}
    | [] => st
    end
  else if startswith "JUSTIFICATION:" line then
    {| st_score := st_score st;
       st_justification :=
         absorb_until_next_action (strip (replace "JUSTIFICATION:" "" line)) rest;
       st_next_action := st_next_action st |}
  else if startswith "NEXT_ACTION:" line then
    {| st_score := st_score st;
       st_justification := st_justification st;
       st_next_action := absorb_all (strip (replace "NEXT_ACTION:" "" line)) rest |}
  else st.

Fixpoint scan (lines : list string) (st : scan_state) : scan_state :=
  match lines with
  | [] => st
  | line :: rest => scan rest (scan_line line rest st)
  end.

(** [response_text.strip().split('\n')] *)
Definition lines_of (response_text : string) : list string :=
  split newline (strip response_text).

Definition fallback_next_action : string :=
  "Review lead and determine outreach strategy".

Record parsed := {
  score : Z;
  justification : string;
  next_action : string
}.

Definition parse_response (response_text : string) : parsed :=
  let st := scan (lines_of response_text) initial in
  let score := match st_score st with Some n => n | None => 50 end in
  let justification :=
    if nonempty (st_justification st) then st_justification st
    else take 400 response_text in
  let next_action :=
    if nonempty (st_next_action st) then st_next_action st
    else fallback_next_action in
  {| score := Z.max 0 (Z.min 100 score);
     justification := take 500 (collapse justification);
     next_action := take 300 (collapse next_action) |}.

(** No marker opens the line. *)
Definition unmarked (line : string) : bool :=
  negb (startswith "SCORE:" line)
  && negb (startswith "JUSTIFICATION:" line)
  && negb (startswith "NEXT_ACTION:" line).

(** The rest of a line behind the marker that opens it. *)
Definition after_prefix (marker line : string) : string :=
  drop (String.length marker) line.

(** The lines up to, and without, the first that opens with
    [NEXT_ACTION:]. *)
Fixpoint before_next_action (ls : list string) : list string :=
  match ls with
  | [] => []
  | l :: ls' =>
      if startswith "NEXT_ACTION:" l then [] else l :: before_next_action ls'
  end.

(** No line of [ls] opens with [marker]. *)
Definition none_opens (marker : string) (ls : list string) : bool :=
  forallb (fun l => negb (startswith marker l)) ls.

Definition some_line (ls : list string) : bool :=
  match ls with [] => false | _ => true end.

End Parser.


(** ** Prompt builder (the prompt block of [score_lead]) *)

Module Prompt.

Import Web.

(** A nullable column inside an f-string. *)
Definition fmt (s : option string) : string :=
  match s with
  | Some s => s
  | None => "None"
  end.

Definition header (lead : Lead) (email_analysis : string) : string :=
  text_of [
    "You are an expert sales consultant analyzing leads for a consulting services company.";
    "";
    "=== LEAD BASIC INFORMATION ===";
    "Company: " +:+ company_name lead;
    "Industry: " +:+ industry lead;
    "Location: " +:+ location lead;
    "Contact: " +:+ contact_name lead;
    "Email: " +:+ contact_email lead;
    "Website: " +:+ fmt (website lead);
    "";
    "=== EMAIL ANALYSIS ===";
    email_analysis;
    "";
    "=== WEBSITE ANALYSIS ===";
    ""].

(** The check mark and the cross of the template lie outside the code
    points below 256; they stand here as their UTF-8 bytes. *)
Definition website_section (website_analysis : option website_analysis) : string :=
  match website_analysis with
  | Some (Summary s) =>
      text_of [
        "";
        "✓ Website Successfully Analyzed: " +:+ url_analyzed s;
        "";
        "Page Title: " +:+ title s;
        "Meta Description: " +:+ meta_description s;
        "";
        "Key Content:";
        key_sections s;
        "";
        "Website Content Sample:";
        full_text_sample s;
        "";
        "Status: Active and accessible with "
          +:+ (if has_content s then "professional" else "limited") +:+ " content";
        ""]
  | Some (Failure error _) =>
      text_of [
        "";
        "✗ Website Analysis FAILED";
        "Error: " +:+ error;
        "RED FLAG: Website may be down, blocked, or non-existent.";
        ""]
  | None =>
      text_of [
        "";
        "✗ NO WEBSITE PROVIDED";
        "RED FLAG: Professional consulting companies should have websites.";
        ""]
  end.

Definition criteria : string :=
  text_of [
    "";
    "";
    "=== SCORING CRITERIA ===";
    "";
    "Score from 0-100 based on these criteria:";
    "";
    "**Website Quality (0-30 points):**";
    "- 30: Excellent professional site with detailed services, case studies, team info";
    "- 20: Good professional site with clear services";
    "- 10: Basic site with limited info";
    "- 5: Website exists but poor quality or inaccessible";
    "- 0: No website";
    "";
    "**Contact Legitimacy (0-25 points):**";
    "- 25: Professional email matching website domain + contact name";
    "- 15: Professional email matching domain";
    "- 10: Professional email (not generic)";
    "- 5: Generic email (gmail, yahoo)";
    "- 0: No valid email";
    "";
    "**Industry Fit (0-20 points):**";
    "- 20: Clearly consulting company (evident from website/notes)";
    "- 10: Likely consulting but not strongly evident";
    "- 0: Not a consulting company";
    "";
    "**Company Legitimacy (0-15 points):**";
    "- Based on: location, website quality, email professionalism";
    "- 15: All indicators positive";
    "- 10: Most indicators positive";
    "- 5: Mixed signals";
    "- 0: Red flags";
    "";
    "**Information Completeness (0-10 points):**";
    "- 10: Complete info (name, email, website, location)";
    "- 5: Most info present";
    "- 0: Very limited info";
    "";
    "**Respond in this EXACT format:**";
    "";
    "SCORE: [number 0-100]";
    "JUSTIFICATION: [2-3 sentences explaining score based on actual website content and analysis. BE SPECIFIC.]";
    "NEXT_ACTION: [one specific actionable next step]";
    "";
    "Example good justification: " +:+ dquote
      +:+ "Score of 85 because website shows established consulting firm with case studies in manufacturing sector. Professional email domain matches website. Clear service offerings in strategy consulting with 15+ years experience stated."
      +:+ dquote;
    "";
    "Now analyze this lead:"].

Definition build_prompt (lead : Lead) (email_analysis : string)
  (website_analysis : option website_analysis) : string :=
  header lead email_analysis +:+ website_section website_analysis +:+ criteria.

End Prompt.

(** ** The store and the endpoints ([main.py])

    The table [leads] is a finite map from the primary key to the row.
    What an endpoint leaves committed is the second component of its
    result.  [score_lead] and [upload_csv] wrap their commit in a [try]:
    they take the outcome of that commit as an argument.  The other
    endpoints have no handler for a failing store; their commit is taken
    to go through.  Console printing is left out. *)

Module Api.

Import Web.

(** What a handler hands back: the body it returns, or the
    [HTTPException] it raises. *)
Inductive response (A : Type) : Type :=
| Ok (body : A)
| HTTPException (status_code : Z) (detail : string).
Arguments Ok {A} body.
Arguments HTTPException {A} status_code detail.

(** Truthiness of an optional string parameter and of an optional
    integer parameter. *)
Definition truthy_str (s : option string) : option string :=
  match s with
  | Some s => if nonempty s then Some s else None
  | None => None
  end.

Definition truthy_int (n : option Z) : option Z :=
  match n with
  | Some n => if Z.eqb n 0 then None else Some n
  | None => None
  end.

(** The key the table gives to a new row: one more than the largest. *)
Definition next_id (db : gmap Z Lead) : Z :=
  1 + foldr Z.max 0 (map fst (map_to_list db)).

(** [db.add(lead)], flushed in order. *)
Fixpoint add_all (leads : list Lead) (db : gmap Z Lead) : gmap Z Lead :=
  match leads with
  | [] => db
  | lead :: leads' => add_all leads' (<[next_id db := lead]> db)
  end.

(** The text of the cells of a CSV row that the loop reads, each as
    [str(row.get(...))] gives it; an empty cell reads ['nan']. *)
Record csv_row := {
  row_company_name : string;
  row_location : string;
  row_industry : string;
  row_website : string;
  row_contact_email : string;
  row_notes : string
}.

Definition clean_value (val_str : string) : string :=
  if String.eqb val_str "nan" then "" else val_str.

Record upload_result := {
  up_message : string;
  leads_added : nat
}.

Record clear_result := {
  cl_message : string;
  leads_deleted : nat
}.

Record filter_options := {
  industries : list string;
  locations : list string
}.

Record score_result := {
  out_lead_id : Z;
  out_score : Z;
  out_justification : string;
  out_next_action : string;
  out_website_analyzed : bool
}.

(** The surroundings of one scoring request. *)
Record score_env := {
  api_key : option string;
  fetch : fetcher;
  (** [client.messages.create(...)] and [message.content[0].text], for a
      key and a prompt *)
  model_call : string -> string -> exc string;
  commit : exc unit
}.

Definition set_ai (lead : Lead) (p : Parser.parsed) : Lead :=
  {| company_name := company_name lead;
     industry := industry lead;
     location := location lead;
     contact_name := contact_name lead;
     contact_email := contact_email lead;
     contact_phone := contact_phone lead;
     revenue := revenue lead;
     employees := employees lead;
     website := website lead;
     notes := notes lead;
     ai_score := Some (Parser.score p);
     ai_justification := Some (Parser.justification p);
     ai_next_action := Some (Parser.next_action p) |}.

Definition website_analyzed (w : option website_analysis) : bool :=
  match w with
  | Some (Summary _) => true
  | _ => false
  end.

(** [POST /leads/{lead_id}/score] *)
Definition score_lead (env : score_env) (lead_id : Z) (db : gmap Z Lead)
  : response score_result * gmap Z Lead :=
  match db !! lead_id with
  | None => (HTTPException 404 "Lead not found", db)
  | Some lead =>
      match truthy_str (api_key env) with
      | None => (HTTPException 500 "ANTHROPIC_API_KEY not configured", db)
      | Some key =>
          try_except
            (let website_analysis := fetch_website_content (fetch env) (website lead) in
             let email_analysis :=
               Email.analyze_email_domain (Some (contact_email lead)) (website lead) in
             let prompt := Prompt.build_prompt lead email_analysis website_analysis in
             response_text ← model_call env key prompt;
             let p := Parser.parse_response response_text in
             _ ← commit env;
             mret (Ok {| out_lead_id := lead_id;
                         out_score := Parser.score p;
                         out_justification := Parser.justification p;
                         out_next_action := Parser.next_action p;
                         out_website_analyzed := website_analyzed website_analysis |},
                   <[lead_id := set_ai lead p]> db))
            (fun e => (HTTPException 500 ("Error scoring lead: " +:+ e), db))
      end
  end.

(** The prompt that [score_lead] sends for a lead. *)
Definition prompt_of (env : score_env) (lead : Lead) : string :=
  Prompt.build_prompt lead
    (Email.analyze_email_domain (Some (contact_email lead)) (website lead))
    (fetch_website_content (fetch env) (website lead)).

(** The three scoring fields are unset. *)
Definition ai_unset (lead : Lead) : Prop :=
  ai_score lead = None ∧ ai_justification lead = None ∧ ai_next_action lead = None.

(** The row with its three scoring fields blanked: what is left is every
    other column. *)
Definition clear_ai (lead : Lead) : Lead :=
  {| company_name := company_name lead;
     industry := industry lead;
     location := location lead;
     contact_name := contact_name lead;
     contact_email := contact_email lead;
     contact_phone := contact_phone lead;
     revenue := revenue lead;
     employees := employees lead;
     website := website lead;
     notes := notes lead;
     ai_score := None;
     ai_justification := None;
     ai_next_action := None |}.

(** [GET /leads/{lead_id}] *)
Definition get_lead (lead_id : Z) (db : gmap Z Lead) : response (Z * Lead) :=
  match db !! lead_id with
  | Some lead => Ok (lead_id, lead)
  | None => HTTPException 404 "Lead not found"
  end.

(** [DELETE /leads/{lead_id}] *)
Definition delete_lead (lead_id : Z) (db : gmap Z Lead)
  : response string * gmap Z Lead :=
  match db !! lead_id with
  | Some _ => (Ok "Lead deleted successfully", delete lead_id db)
  | None => (HTTPException 404 "Lead not found", db)
  end.

(** [GET /filters] *)
Definition get_filter_options (db : gmap Z Lead) : filter_options :=
  let rows := map snd (map_to_list db) in
  {| industries := List.filter nonempty (remove_dups (map industry rows));
     locations := List.filter nonempty (remove_dups (map location rows)) |}.

(** [DELETE /clear-all] *)
Definition clear_all_leads (db : gmap Z Lead) : clear_result * gmap Z Lead :=
  let count := size db in
  ({| cl_message := "All " +:+ str_of_Z (Z.of_nat count) +:+ " leads deleted successfully";
      leads_deleted := count |}, ∅).

(** [Column.contains] read as plain containment of the parameter in the
    column, used in the examples. *)
Definition substring_match (column p : string) : bool := str_in p column.

(** A lead as an upload creates it, used in the examples. *)
Definition acme : Lead :=
  {| company_name := "Acme Consulting";
     industry := "Consulting";
     location := "New York";
     contact_name := "Jane Doe";
     contact_email := "jane.doe@acme.com";
     contact_phone := "";
     revenue := Some "";
     employees := Some "";
     website := Some "acme.com";
     notes := Some "";
     ai_score := None;
     ai_justification := None;
     ai_next_action := None |}.

(** Surroundings in which the site is down and the model answers
    [reply], or raises. *)
Definition env_with (reply : exc string) (commit : exc unit) : score_env :=
  {| api_key := Some "sk-test";
     fetch := fun _ => inl "connection refused";
     model_call := fun _ _ => reply;
     commit := commit |}.

Section Library.

(** [str.title], and the store's rendering of [Column.contains]: the
    column value, then the parameter. *)
Variable str_title : string -> string.
Variable sql_contains : string -> string -> bool.

Definition where_industry (p : string) (lead : Lead) : bool :=
  String.eqb (industry lead) p.

Definition where_location (p : string) (lead : Lead) : bool :=
  sql_contains (location lead) p.

(** A row whose [ai_score] is NULL fails the comparison. *)
Definition where_min_score (m : Z) (lead : Lead) : bool :=
  match ai_score lead with
  | Some s => Z.leb m s
  | None => false
  end.

Definition query := list (Z * Lead).

Definition query_filter (cond : Lead -> bool) (q : query) : query :=
  List.filter (fun r => cond (snd r)) q.

(** [GET /leads] *)
Definition get_leads (industry location : option string) (min_score : option Z)
  (db : gmap Z Lead) : query :=
  let query := map_to_list db in
  let query := match truthy_str industry with
               | Some p => query_filter (where_industry p) query
               | None => query
               end in
  let query := match truthy_str location with
               | Some p => query_filter (where_location p) query
               | None => query
               end in
  let query := match truthy_int min_score with
               | Some m => query_filter (where_min_score m) query
               | None => query
               end in
  query.

(** The leads that the three parameters select: a parameter that is
    absent, empty or zero selects every lead. *)
Definition selected (ind loc : option string) (min_score : option Z)
    (lead : Lead) : Prop :=
  (∀ p, truthy_str ind = Some p → industry lead = p)
  ∧ (∀ p, truthy_str loc = Some p → sql_contains (location lead) p = true)
  ∧ (∀ m, truthy_int min_score = Some m →
          ∃ s, ai_score lead = Some s ∧ (m ≤ s)%Z).

Definition lead_of_row (row : csv_row) : exc Lead :=
  let email := row_contact_email row in
  contact_name ←
    (if nonempty email && str_in "@" email && negb (String.eqb email "nan")
     then local ← index (split "@" email) 0;
          mret (str_title (replace "." " " local))
     else mret "");
  mret {| company_name := clean_value (row_company_name row);
          industry := clean_value (row_industry row);
          location := clean_value (row_location row);
          contact_name := contact_name;
          contact_email := clean_value (row_contact_email row);
          contact_phone := "";
          revenue := Some "";
          employees := Some "";
          website := Some (clean_value (row_website row));
          notes := Some (clean_value (row_notes row));
          ai_score := None;
          ai_justification := None;
          ai_next_action := None |}.

(** [POST /upload]: [read] is the outcome of reading the file and of
    [pd.read_csv]. *)
Definition upload_csv (filename : string) (read : exc (list csv_row))
  (commit : exc unit) (db : gmap Z Lead)
  : response upload_result * gmap Z Lead :=
  if negb (endswith ".csv" filename)
  then (HTTPException 400 "File must be a CSV", db)
  else
    try_except
      (rows ← read;
       leads ← mapM lead_of_row rows;
       _ ← commit;
       mret (Ok {| up_message := "CSV uploaded successfully";
                   leads_added := length leads |},
             add_all leads db))
      (fun e => (HTTPException 500 ("Error processing CSV: " +:+ e), db)).

(** The requests the service answers, and the table each leaves. *)
Inductive request :=
| ReadRoot
| UploadCsv (filename : string) (read : exc (list csv_row)) (commit : exc unit)
| GetLeads (industry location : option string) (min_score : option Z)
| GetLead (lead_id : Z)
| DeleteLead (lead_id : Z)
| GetFilterOptions
| ClearAllLeads
| ScoreLead (env : score_env) (lead_id : Z).

Definition is_scoring (r : request) : bool :=
  match r with
  | ScoreLead _ _ => true
  | _ => false
  end.

Definition store_after (r : request) (db : gmap Z Lead) : gmap Z Lead :=
  match r with
  | ReadRoot | GetLeads _ _ _ | GetLead _ | GetFilterOptions => db
  | UploadCsv filename read commit => snd (upload_csv filename read commit db)
  | DeleteLead lead_id => snd (delete_lead lead_id db)
  | ClearAllLeads => snd (clear_all_leads db)
  | ScoreLead env lead_id => snd (score_lead env lead_id db)
  end.

End Library.

End Api.

(** ** Vocabulary of the further properties *)

Module Shape.

Import Web Parser.

Abbreviation nonspace := (fun c : ascii => negb (is_space c)).

Definition NL : string := String newline "".

(** Every character of the text satisfies [p]. *)
Fixpoint all_chars (p : ascii -> bool) (s : string) : bool :=
  match s with
  | EmptyString => true
  | String c s' => p c && all_chars p s'
  end.

(** The only whitespace of the text is the plain space, never first and
    never twice in a row; [prev] tells that a space came just before. *)
Fixpoint spaced (prev : bool) (s : string) : bool :=
  match s with
  | EmptyString => true
  | String c s' =>
      if is_space c
      then Ascii.eqb c " " && negb prev && spaced true s'
      else spaced false s'
  end.

Definition single_spaced (s : string) : bool := spaced true s.

(** No character of the text is a digit. *)
Definition no_digit (s : string) : bool :=
  all_chars (fun c => negb (is_digit c)) s.

(** The text is empty or whitespace throughout. *)
Definition blank (s : string) : bool := all_chars is_space s.

(** The longest run of digits that [int()] converts: the interpreter's
    default [sys.int_info.default_max_str_digits]; on a longer run it
    raises [ValueError]. *)
Definition max_str_digits : nat := 4300.

(** A text that collapsing whitespace leaves as it is, and is not empty. *)
Definition normal (s : string) : bool :=
  nonempty s && String.eqb (collapse s) s.

(** A reply in the format the prompt asks for. *)
Definition reply (digits justification next_action : string) : string :=
  text_of ["SCORE: " +:+ digits;
           "JUSTIFICATION: " +:+ justification;
           "NEXT_ACTION: " +:+ next_action].

(** The URL a website analysis carries. *)
Definition url_of (w : website_analysis) : string :=
  match w with
  | Summary s => url_analyzed s
  | Failure _ url => url
  end.

(** The columns of a lead that the prompt shows. *)
Definition prompt_fields (lead : Lead)
  : string * string * string * string * string * option string :=
  (company_name lead, industry lead, location lead,
   contact_name lead, contact_email lead, website lead).

(** A [SCORE:] line in which the pattern finds a number. *)
Definition score_of_line (line : string) : option Z :=
  if startswith "SCORE:" line then
    match findall_digits (strip (replace "SCORE:" "" line)) with
    | n :: _ => Some (int n)
    | [] => None
    end
  else None.

End Shape.

(** ** The store's [LIKE] ([database.py]: SQLite)

    [Column.contains(p)] is rendered as [column LIKE '%' || p || '%'],
    without an escape character.  In SQLite's [LIKE] a [%] of the pattern
    stands for any run of characters, a [_] for any one character, and
    the letters A to Z match their lower-case forms. *)

Module Sqlite.







End Sqlite.

(** * Properties *)

(** ** Facts about the string primitives *)

Module PyFacts.

Lemma split_nonempty sep s : split sep s ≠ [].
Proof.
  destruct s as [|c s]; simpl; [discriminate|].
  destruct (Ascii.eqb c sep); [discriminate|].
  destruct (split sep s); discriminate.
Qed.

Lemma index_split_0 sep s : ∃ h, index (split sep s) 0 = inr h.
Proof.
  unfold index. destruct (split sep s) as [|h t] eqn:E.
  - by apply split_nonempty in E.
  - by exists h.
Qed.

Lemma str_in_cons sub c s : str_in sub (String c s) = false → str_in sub s = false.
Proof. simpl. intros H. by apply orb_false_iff in H as [_ H]. Qed.

(** A text without the separator is a single field. *)
Lemma split_absent sep s :
  str_in (String sep "") s = false → split sep s = [s].
Proof.
  induction s as [|c s IH]; [done|].
  intros H. pose proof (str_in_cons _ _ _ H) as H'.
  simpl in H. apply orb_false_iff in H as [H _].
  simpl. rewrite Ascii.eqb_sym.
  destruct (Ascii.eqb sep c); [done|].
  by rewrite (IH H').
Qed.

(** Up to the first separator lies the first field. *)
Lemma split_app sep a rest :
  str_in (String sep "") a = false →
  split sep (a +:+ String sep rest) = a :: split sep rest.
Proof.
  induction a as [|c a IH]; intros H.
  - simpl. by rewrite Ascii.eqb_refl.
  - pose proof (str_in_cons _ _ _ H) as H'.
    simpl in H. apply orb_false_iff in H as [H _].
    simpl. rewrite Ascii.eqb_sym.
    destruct (Ascii.eqb sep c); [done|].
    by rewrite (IH H').
Qed.

Lemma str_in_app_r sub a b : str_in sub b = true → str_in sub (a +:+ b) = true.
Proof.
  intros H. induction a as [|c a IH]; [done|].
  simpl. rewrite IH. apply orb_true_r.
Qed.

Lemma str_in_empty s : str_in "" s = true.
Proof. by destruct s. Qed.

Lemma length_take_le n s : (String.length (take n s) ≤ n)%nat.
Proof.
  revert s. induction n as [|n IH]; intros [|c s]; simpl; try lia.
  specialize (IH s). lia.
Qed.

Lemma take_all n s : (String.length s ≤ n)%nat → take n s = s.
Proof.
  revert s. induction n as [|n IH]; intros [|c s]; simpl; try done; try lia.
  intros H. f_equal. apply IH. lia.
Qed.

Lemma length_app (a b : string) :
  String.length (a +:+ b) = (String.length a + String.length b)%nat.
Proof. induction a as [|c a IH]; simpl; [done|]. by rewrite IH. Qed.

Lemma head_is_runs p s : head_is p s = true → runs p s ≠ [].
Proof.
  destruct s as [|c s]; simpl; [done|]. intros ->.
  destruct (head_is p s); [|done]. by destruct (runs p s).
Qed.

(** Collapsing whitespace never lengthens a text. *)
Lemma length_join_runs p s :
  (String.length (join " " (runs p s)) ≤ String.length s)%nat
  ∧ (head_is p s = false → runs p s ≠ [] →
     String.length (join " " (runs p s)) + 1 ≤ String.length s)%nat.
Proof.
  induction s as [|c s [IH1 IH2]]; [simpl; split; [lia|done]|].
  simpl. destruct (p c) eqn:Hc.
  - split; [|done].
    destruct (head_is p s) eqn:Hs.
    + pose proof (head_is_runs _ _ Hs).
      destruct (runs p s) as [|r rs]; [done|].
      simpl in *. destruct rs; simpl in *; lia.
    + destruct (runs p s) as [|r rs] eqn:E; [simpl; lia|].
      assert (r :: rs ≠ []) as Hne by done.
      specialize (IH2 eq_refl Hne).
      change (join " " (String c "" :: r :: rs))
        with (String c (String " " (join " " (r :: rs)))).
      remember (join " " (r :: rs)) as j. simpl String.length. lia.
  - split; [lia|]. intros _ Hne. specialize (IH1). lia.
Qed.

Lemma length_collapse s : (String.length (collapse s) ≤ String.length s)%nat.
Proof. apply length_join_runs. Qed.

(** *** Words and stripping *)

Lemma head_is_app p a b :
  head_is p (a +:+ b) = match a with "" => head_is p b | _ => head_is p a end.
Proof. by destruct a. Qed.

(** A character outside [p] separates the runs on its two sides. *)
Lemma runs_app_sep p a c b :
  p c = false → runs p (a +:+ String c b) = (runs p a ++ runs p b)%list.
Proof.
  intros Hc. induction a as [|x a IH].
  - simpl. by rewrite Hc.
  - change (String x a +:+ String c b) with (String x (a +:+ String c b)).
    cbn [runs]. rewrite IH, head_is_app.
    destruct (p x); [|done].
    destruct a as [|y a].
    + simpl. by rewrite Hc.
    + cbn [head_is]. destruct (p y) eqn:Hy; [|done].
      assert (runs p (String y a) ≠ []) as Hne by (apply head_is_runs; simpl; done).
      by destruct (runs p (String y a)).
Qed.

Lemma split_ws_lstrip s : split_ws (lstrip s) = split_ws s.
Proof.
  unfold split_ws. induction s as [|c s IH]; [done|].
  cbn [lstrip]. destruct (is_space c) eqn:Hc; [|done].
  rewrite IH. cbn [runs]. by rewrite Hc.
Qed.

Lemma rstrip_head s :
  match rstrip s with
  | "" => split_ws s = [] ∧ head_is (fun c => negb (is_space c)) s = false
  | String _ _ =>
      head_is (fun c => negb (is_space c)) (rstrip s)
        = head_is (fun c => negb (is_space c)) s
  end.
Proof.
  destruct s as [|c s]; [done|]. cbn [rstrip].
  destruct (rstrip s) eqn:E.
  - destruct (is_space c) eqn:Hc; [|done].
    unfold split_ws. cbn [runs head_is]. rewrite Hc. simpl.
    split; [|done].
    clear c Hc. induction s as [|c s IH]; [done|].
    cbn [rstrip] in E. destruct (rstrip s); [|done].
    destruct (is_space c) eqn:Hc; [|done].
    cbn [runs]. rewrite Hc. simpl. by apply IH.
  - done.
Qed.

Lemma split_ws_rstrip s : split_ws (rstrip s) = split_ws s.
Proof.
  induction s as [|c s IH]; [done|].
  pose proof (rstrip_head s) as Hhead. cbn [rstrip].
  destruct (rstrip s) as [|y r] eqn:E.
  - destruct Hhead as [Hnil Hh]. unfold split_ws in *.
    destruct (is_space c) eqn:Hc.
    + cbn [runs]. rewrite Hc. simpl. by rewrite Hnil.
    + cbn [runs head_is]. rewrite Hc, Hh, Hnil. done.
  - clear E. revert Hhead IH. generalize (String y r). intros t Hhead IH.
    unfold split_ws in *. cbn [runs]. by rewrite Hhead, IH.
Qed.

Lemma split_ws_strip s : split_ws (strip s) = split_ws s.
Proof. unfold strip. by rewrite split_ws_rstrip, split_ws_lstrip. Qed.

Lemma split_ws_app_space a b :
  split_ws (a +:+ " " +:+ b) = (split_ws a ++ split_ws b)%list.
Proof. by apply runs_app_sep. Qed.

Lemma split_ws_join x ls :
  split_ws (join " " (x :: ls)) = (split_ws x ++ concat (map split_ws ls))%list.
Proof.
  revert x. induction ls as [|y ls IH]; intros x.
  - simpl. by rewrite app_nil_r.
  - change (join " " (x :: y :: ls)) with (x +:+ " " +:+ join " " (y :: ls)).
    by rewrite split_ws_app_space, IH.
Qed.

Lemma replace_from_skip old new k s :
  replace_from old new k s = replace_from old new 0 (drop k s).
Proof.
  revert s. induction k as [|k IH]; intros s; [by destruct s|].
  destruct s as [|c s]; [done|]. apply IH.
Qed.

Lemma replace_from_absent old new s :
  old ≠ "" → str_in old s = false → replace_from old new 0 s = s.
Proof.
  intros Hold. induction s as [|c s IH]; [done|]. intros H.
  pose proof (str_in_cons _ _ _ H) as H'.
  cbn [str_in] in H. apply orb_false_iff in H as [H _].
  cbn [replace_from]. rewrite H. f_equal. by apply IH.
Qed.

(** Removing a marker that opens the line and does not come again
    leaves the rest of the line. *)
Lemma replace_prefix_once marker line :
  marker ≠ "" → startswith marker line = true →
  str_in marker (drop (String.length marker) line) = false →
  replace marker "" line = drop (String.length marker) line.
Proof.
  intros Hm Hstart Habsent.
  destruct marker as [|a marker]; [done|]. unfold replace.
  destruct line as [|c line]; [done|].
  cbn [replace_from]. rewrite Hstart.
  change ("" +:+ ?x) with x.
  rewrite replace_from_skip.
  change (String.length (String a marker) - 1)%nat
    with (String.length marker - 0)%nat.
  rewrite Nat.sub_0_r.
  change (drop (String.length (String a marker)) (String c line))
    with (drop (String.length marker) line) in *.
  by apply replace_from_absent.
Qed.

Lemma append_assoc (a b c : string) : (a +:+ b) +:+ c = a +:+ b +:+ c.
Proof.
  induction a as [|x a IH]; [done|].
  change (String x ((a +:+ b) +:+ c) = String x (a +:+ b +:+ c)). by f_equal.
Qed.

Lemma nonempty_app_space a b : nonempty (a +:+ " " +:+ b) = true.
Proof. by destruct a. Qed.

End PyFacts.

(** ** The response parser *)

Module ParserFacts.

Import Parser PyFacts.

(** Splits a [forallb] over [l :: ls] into the head's test and the
    tail's. *)
Ltac forallb_cons H Hl :=
  simpl in H; apply andb_true_iff in H as [Hl H].

Lemma scan_line_unmarked line rest st :
  unmarked line = true → scan_line line rest st = st.
Proof.
  unfold unmarked, scan_line. intros H.
  apply andb_true_iff in H as [H H3]. apply andb_true_iff in H as [H1 H2].
  apply negb_true_iff in H1, H2, H3. by rewrite H1, H2, H3.
Qed.

Lemma scan_unmarked lines st :
  forallb unmarked lines = true → scan lines st = st.
Proof.
  revert st. induction lines as [|line rest IH]; intros st H; [done|].
  forallb_cons H Hl.
  cbn [scan]. rewrite scan_line_unmarked by done. by apply IH.
Qed.

Lemma clamp_range (n : Z) : (0 ≤ Z.max 0 (Z.min 100 n) ≤ 100)%Z.
Proof. lia. Qed.

Lemma collapse_fallback : collapse fallback_next_action = fallback_next_action.
Proof. reflexivity. Qed.

Lemma take_collapse_400 text :
  take 500 (collapse (take 400 text)) = collapse (take 400 text).
Proof.
  apply take_all.
  pose proof (length_collapse (take 400 text)).
  pose proof (length_take_le 400 text). lia.
Qed.

(** *** What the scan keeps after a marker *)

Lemma absorb_until_before acc ls :
  absorb_until_next_action acc ls = absorb_all acc (before_next_action ls).
Proof.
  revert acc. induction ls as [|l ls IH]; intros acc; [done|].
  cbn [absorb_until_next_action before_next_action].
  destruct (startswith "NEXT_ACTION:" l); [done|]. apply IH.
Qed.

Lemma absorb_all_join acc ls : absorb_all acc ls = join " " (acc :: map strip ls).
Proof.
  revert acc. induction ls as [|l ls IH]; intros acc; [done|].
  cbn [absorb_all map]. rewrite IH.
  change (join " " (acc :: strip l :: map strip ls))
    with (acc +:+ " " +:+ join " " (strip l :: map strip ls)).
  destruct (map strip ls) as [|x xs]; [done|].
  change (join " " ((acc +:+ " " +:+ strip l) :: x :: xs))
    with ((acc +:+ " " +:+ strip l) +:+ " " +:+ join " " (x :: xs)).
  change (join " " (strip l :: x :: xs))
    with (strip l +:+ " " +:+ join " " (x :: xs)).
  by rewrite !append_assoc.
Qed.

Lemma nonempty_absorb_all acc ls :
  nonempty (absorb_all acc ls) = nonempty acc || some_line ls.
Proof.
  revert acc. induction ls as [|l ls IH]; intros acc.
  - simpl. by rewrite orb_false_r.
  - cbn [absorb_all]. rewrite IH, nonempty_app_space. simpl.
    by rewrite orb_true_r.
Qed.

(** Stripping the pieces is not seen once whitespace is collapsed. *)
Lemma collapse_absorb_all rest ls :
  collapse (absorb_all (strip rest) ls) = collapse (join " " (rest :: ls)).
Proof.
  unfold collapse. f_equal.
  rewrite absorb_all_join, !split_ws_join, split_ws_strip. f_equal.
  induction ls as [|l ls IH]; [done|].
  simpl. by rewrite split_ws_strip, IH.
Qed.

Lemma opens_next_action line :
  startswith "NEXT_ACTION:" line = true →
  startswith "SCORE:" line = false ∧ startswith "JUSTIFICATION:" line = false.
Proof.
  destruct line as [|c line]; [done|]. cbn [startswith].
  destruct (Ascii.eqb_spec "N" c) as [<-|]; done.
Qed.

Lemma opens_justification line :
  startswith "JUSTIFICATION:" line = true → startswith "SCORE:" line = false.
Proof.
  destruct line as [|c line]; [done|]. cbn [startswith].
  destruct (Ascii.eqb_spec "J" c) as [<-|]; done.
Qed.

Lemma scan_line_keeps_justification line rest st :
  startswith "JUSTIFICATION:" line = false →
  st_justification (scan_line line rest st) = st_justification st.
Proof.
  intros H. unfold scan_line. rewrite H.
  destruct (startswith "SCORE:" line); [by destruct (findall_digits _)|].
  by destruct (startswith "NEXT_ACTION:" line).
Qed.

Lemma scan_line_keeps_next_action line rest st :
  startswith "NEXT_ACTION:" line = false →
  st_next_action (scan_line line rest st) = st_next_action st.
Proof.
  intros H. unfold scan_line. rewrite H.
  destruct (startswith "SCORE:" line); [by destruct (findall_digits _)|].
  by destruct (startswith "JUSTIFICATION:" line).
Qed.

Lemma scan_keeps_justification ls st :
  none_opens "JUSTIFICATION:" ls = true →
  st_justification (scan ls st) = st_justification st.
Proof.
  revert st. induction ls as [|l ls IH]; intros st H; [done|].
  forallb_cons H Hl. apply negb_true_iff in Hl.
  cbn [scan]. rewrite IH by done. by apply scan_line_keeps_justification.
Qed.

Lemma scan_keeps_next_action ls st :
  none_opens "NEXT_ACTION:" ls = true →
  st_next_action (scan ls st) = st_next_action st.
Proof.
  revert st. induction ls as [|l ls IH]; intros st H; [done|].
  forallb_cons H Hl. apply negb_true_iff in Hl.
  cbn [scan]. rewrite IH by done. by apply scan_line_keeps_next_action.
Qed.

Lemma scan_app_cons pre line post st :
  ∃ st', scan (pre ++ line :: post) st = scan post (scan_line line post st').
Proof.
  revert st. induction pre as [|l pre IH]; intros st; [by exists st|].
  simpl. apply IH.
Qed.

(** The last [JUSTIFICATION:] line decides the justification. *)
Lemma scan_justification_last pre line post st :
  startswith "JUSTIFICATION:" line = true →
  none_opens "JUSTIFICATION:" post = true →
  st_justification (scan (pre ++ line :: post) st)
    = absorb_until_next_action (strip (replace "JUSTIFICATION:" "" line)) post.
Proof.
  intros Hline Hpost.
  destruct (scan_app_cons pre line post st) as [st' ->].
  rewrite scan_keeps_justification by done.
  unfold scan_line. by rewrite (opens_justification _ Hline), Hline.
Qed.

(** The last [NEXT_ACTION:] line decides the next action. *)
Lemma scan_next_action_last pre line post st :
  startswith "NEXT_ACTION:" line = true →
  none_opens "NEXT_ACTION:" post = true →
  st_next_action (scan (pre ++ line :: post) st)
    = absorb_all (strip (replace "NEXT_ACTION:" "" line)) post.
Proof.
  intros Hline Hpost.
  destruct (scan_app_cons pre line post st) as [st' ->].
  rewrite scan_keeps_next_action by done.
  destruct (opens_next_action _ Hline) as [H1 H2].
  unfold scan_line. by rewrite H1, H2, Hline.
Qed.

(** C4 as stated fails: of two lines that open with [JUSTIFICATION:],
    the first does not give the justification; the later one replaces
    what the first gathered. *)
Lemma justification_earlier_marker_counterexample :
  let text := "JUSTIFICATION: a" +:+ String newline "JUSTIFICATION: b" in
  let stated :=
    join " " (after_prefix "JUSTIFICATION:" "JUSTIFICATION: a"
              :: before_next_action ["JUSTIFICATION: b"]) in
  lines_of text = ["JUSTIFICATION: a"; "JUSTIFICATION: b"]
  ∧ startswith "JUSTIFICATION:" "JUSTIFICATION: a" = true
  ∧ stated = " a JUSTIFICATION: b"
  ∧ justification (parse_response text) = "b"
  ∧ justification (parse_response text) ≠ stated
  ∧ justification (parse_response text) ≠ collapse stated.
Proof. by repeat split. Qed.

(** C4, amended. Take the last line that opens with [JUSTIFICATION:],
    when the marker does not come again inside it.  The scan gathers the
    rest of that line and each following line up to, and without, the
    first that opens with [NEXT_ACTION:], each stripped and joined by
    single spaces; the justification returned is that text with
    whitespace collapsed, cut to 500 characters (the default when it is
    empty).  Likewise the last line that opens with [NEXT_ACTION:]
    gathers the rest of that line and every line after it to the end of
    the response; the next action returned is that text with whitespace
    collapsed, cut to 300 characters (the default when it is empty). *)
Theorem absorb_after_last_marker (response_text : string)
    (pre post : list string) (line : string) :
  lines_of response_text = (pre ++ line :: post)%list →
  (startswith "JUSTIFICATION:" line = true →
   str_in "JUSTIFICATION:" (after_prefix "JUSTIFICATION:" line) = false →
   none_opens "JUSTIFICATION:" post = true →
   let rest := after_prefix "JUSTIFICATION:" line in
   let absorbed := before_next_action post in
   st_justification (scan (lines_of response_text) initial)
     = join " " (strip rest :: map strip absorbed)
   ∧ justification (parse_response response_text)
     = if nonempty (strip rest) || some_line absorbed
       then take 500 (collapse (join " " (rest :: absorbed)))
       else collapse (take 400 response_text))
  ∧ (startswith "NEXT_ACTION:" line = true →
     str_in "NEXT_ACTION:" (after_prefix "NEXT_ACTION:" line) = false →
     none_opens "NEXT_ACTION:" post = true →
     let rest := after_prefix "NEXT_ACTION:" line in
     st_next_action (scan (lines_of response_text) initial)
       = join " " (strip rest :: map strip post)
     ∧ next_action (parse_response response_text)
       = if nonempty (strip rest) || some_line post
         then take 300 (collapse (join " " (rest :: post)))
         else "Review lead and determine outreach strategy").
Proof.
  intros Hlines. split.
  - intros Hline Honce Hpost rest absorbed.
    assert (st_justification (scan (lines_of response_text) initial)
            = absorb_all (strip rest) absorbed) as Hscan.
    { rewrite Hlines, scan_justification_last by done.
      rewrite replace_prefix_once by done. apply absorb_until_before. }
    split; [by rewrite Hscan, absorb_all_join|].
    unfold parse_response. cbn [justification]. rewrite Hscan.
    rewrite nonempty_absorb_all.
    destruct (nonempty (strip rest) || some_line absorbed).
    + by rewrite collapse_absorb_all.
    + apply take_collapse_400.
  - intros Hline Honce Hpost rest.
    assert (st_next_action (scan (lines_of response_text) initial)
            = absorb_all (strip rest) post) as Hscan.
    { rewrite Hlines, scan_next_action_last by done.
      by rewrite replace_prefix_once. }
    split; [by rewrite Hscan, absorb_all_join|].
    unfold parse_response. cbn [next_action]. rewrite Hscan.
    rewrite nonempty_absorb_all.
    destruct (nonempty (strip rest) || some_line post).
    + by rewrite collapse_absorb_all.
    + reflexivity.
Qed.

Lemma absorb_after_last_marker_witness :
  let text := text_of ["SCORE: 85";
                       "JUSTIFICATION: Good  site.";
                       "  More detail. ";
                       "NEXT_ACTION: Call.";
                       "Thanks!"] in
  justification (parse_response text) = "Good site. More detail."
  ∧ next_action (parse_response text) = "Call. Thanks!".
Proof.
  intros text. split.
  - exact (proj2 (proj1 (absorb_after_last_marker text
             ["SCORE: 85"] ["  More detail. "; "NEXT_ACTION: Call."; "Thanks!"]
             "JUSTIFICATION: Good  site." eq_refl) eq_refl eq_refl eq_refl)).
  - exact (proj2 (proj2 (absorb_after_last_marker text
             ["SCORE: 85"; "JUSTIFICATION: Good  site."; "  More detail. "]
             ["Thanks!"] "NEXT_ACTION: Call." eq_refl) eq_refl eq_refl eq_refl)).
Defined.

(** The marker is taken out of the line wherever it stands in it, not
    at its start alone. *)
Example marker_inside_line :
  justification (parse_response "JUSTIFICATION: see JUSTIFICATION: above")
    = "see above".
Proof. reflexivity. Qed.

(** A [JUSTIFICATION:] line with nothing but blank lines behind it
    gathers a space: the default does not apply and the justification
    returned is empty. *)
Example blank_justification :
  justification
    (parse_response (text_of ["JUSTIFICATION:"; ""; "NEXT_ACTION: Call."]))
    = "".
Proof. reflexivity. Qed.

End ParserFacts.

(** ** The website summarizer *)

Module WebFacts.

Import Web.

(** C5. For no input, [""] or ["nan"] the summarizer returns [None]; for
    every other input it returns a value: the summary when nothing
    raised, and when the fetch or the parse raised, the failure value
    that carries a message made from the exception and the normalized
    URL that was attempted. *)
Theorem fetch_website_content_total (fetch : fetcher) (url : string) :
  fetch_website_content fetch None = None
  ∧ fetch_website_content fetch (Some "") = None
  ∧ fetch_website_content fetch (Some "nan") = None
  ∧ (url ≠ "" → url ≠ "nan" →
     match fetch (normalize_url url) with
     | inl e =>
         fetch_website_content fetch (Some url)
           = Some (Failure ("Could not fetch website: " +:+ e) (normalize_url url))
     | inr sc =>
         fetch_website_content fetch (Some url)
           = Some (Summary (summarize (normalize_url url) sc))
     end).
Proof.
  split; [done|]. split; [done|]. split; [done|]. intros H1 H2.
  unfold fetch_website_content.
  destruct (String.eqb_spec url "nan") as [->|_]; [done|].
  destruct (String.eqb_spec url "") as [->|_]; [done|].
  destruct url as [|c url]; [done|]. cbn [nonempty negb orb].
  by destruct (fetch _).
Qed.

Lemma fetch_website_content_total_witness :
  let fetch : fetcher := fun _ => inl "timed out" in
  fetch_website_content fetch (Some "acme.com")
    = Some (Failure "Could not fetch website: timed out" "https://acme.com").
Proof.
  exact (proj2 (proj2 (proj2
           (fetch_website_content_total (fun _ => inl "timed out") "acme.com")))
           ltac:(discriminate) ltac:(discriminate)).
Defined.

End WebFacts.

(** ** The email analyzer *)

Module EmailFacts.

Import Email PyFacts.

Lemma given_Some s : s ≠ "" → s ≠ "nan" → given (Some s) = Some s.
Proof.
  intros H1 H2. unfold given.
  destruct (String.eqb_spec s "nan") as [->|_]; [done|].
  destruct (String.eqb_spec s "") as [->|_]; [done|].
  by destruct s.
Qed.

Lemma given_placeholder : given (Some "") = None ∧ given (Some "nan") = None.
Proof. done. Qed.

(** An address without [@] has no second field: the [try] raises. *)
Lemma analyze_body_no_at email website :
  str_in "@" email = false →
  analyze_body email website = inl "list index out of range".
Proof.
  intros H. unfold analyze_body. by rewrite (split_absent _ _ H).
Qed.

(** An address whose field after the first [@] is empty. *)
Lemma split_empty_domain a rest :
  str_in "@" a = false → rest = "" ∨ startswith "@" rest = true →
  index (split "@" (a +:+ String "@" rest)) 1 = inr "".
Proof.
  intros Ha Hrest. rewrite (split_app _ _ _ Ha).
  destruct Hrest as [->|Hrest]; [done|].
  destruct rest as [|c rest]; [done|].
  change (Ascii.eqb "@" c && startswith "" rest = true) in Hrest.
  apply andb_true_iff in Hrest as [Hc _].
  apply Ascii.eqb_eq in Hc as <-. done.
Qed.

(** C6 as stated fails: the placeholder ["nan"] holds no [@], and the
    analyzer answers that no email was provided. *)
Lemma analyze_no_at_counterexample :
  str_in "@" "nan" = false
  ∧ analyze_email_domain (Some "nan") (Some "https://www.acme.com/x")
      = "No email provided"
  ∧ analyze_email_domain (Some "nan") (Some "https://www.acme.com/x")
      ≠ "Invalid email format".
Proof. done. Qed.

(** C6, amended. The analyzer is a total function, and whatever is
    raised inside its [try] becomes the invalid-format message; a gmail
    address is reported as generic whatever the website;
    [user@acme.com] with [https://www.acme.com/x] is reported as
    matching; the empty address and the placeholder ["nan"] are
    reported as not provided, whatever the website; and an address
    without [@] that is neither empty nor the placeholder ["nan"] is
    reported as invalid. *)
Theorem analyze_email_domain_cases :
  (∀ e w msg, given (Some e) = Some e → analyze_body e w = inl msg →
              analyze_email_domain (Some e) w = "Invalid email format")
  ∧ (∀ w, analyze_email_domain (Some "user@gmail.com") w
          = "Generic email domain (gmail.com) - less professional")
  ∧ analyze_email_domain (Some "user@acme.com") (Some "https://www.acme.com/x")
      = "Professional email - domain matches website (acme.com)"
  ∧ (∀ w, analyze_email_domain (Some "") w = "No email provided")
  ∧ (∀ w, analyze_email_domain (Some "nan") w = "No email provided")
  ∧ (∀ e w, str_in "@" e = false → e ≠ "" → e ≠ "nan" →
            analyze_email_domain (Some e) w = "Invalid email format").
Proof.
  split; [|repeat split; try done].
  - intros e w msg Hgiven Hraise. unfold analyze_email_domain.
    by rewrite Hgiven, Hraise.
  - intros e w Hat H1 H2. unfold analyze_email_domain.
    rewrite (given_Some _ H1 H2). by rewrite (analyze_body_no_at _ _ Hat).
Qed.

Lemma analyze_email_domain_cases_witness :
  analyze_body "not-an-email" (Some "https://www.acme.com/x")
    = inl "list index out of range"
  ∧ analyze_email_domain (Some "not-an-email") (Some "https://www.acme.com/x")
    = "Invalid email format".
Proof.
  split; [reflexivity|].
  pose proof (proj1 analyze_email_domain_cases
                "not-an-email" (Some "https://www.acme.com/x")
                "list index out of range" eq_refl eq_refl) as Hraise.
  exact (proj2 (proj2 (proj2 (proj2 (proj2 analyze_email_domain_cases))))
           "not-an-email" (Some "https://www.acme.com/x")
           eq_refl ltac:(discriminate) ltac:(discriminate)).
Defined.

(** C10. When the part of the address between its first [@] and the
    next [@] (or the end) is empty, and the website is neither empty nor
    ["nan"], the analyzer reports that the domain matches the website,
    naming the empty domain. *)
Theorem analyze_empty_domain (a rest website : string) :
  str_in "@" a = false →
  rest = "" ∨ startswith "@" rest = true →
  website ≠ "" → website ≠ "nan" →
  analyze_email_domain (Some (a +:+ String "@" rest)) (Some website)
    = "Professional email - domain matches website ()".
Proof.
  intros Ha Hrest Hw1 Hw2.
  assert (str_in "@" (a +:+ String "@" rest) = true) as Hin.
  { by apply str_in_app_r. }
  unfold analyze_email_domain. rewrite given_Some.
  - unfold analyze_body. rewrite (split_empty_domain _ _ Ha Hrest).
    cbn [mbind exc_bind lower]. change (mem "" generic_domains) with false.
    cbn iota. rewrite (given_Some _ Hw1 Hw2).
    destruct (index_split_0 "/"
      (replace "www." "" (replace "https://" "" (replace "http://" "" website))))
      as [host ->].
    cbn [mbind exc_bind]. by rewrite str_in_empty.
  - intros E. by rewrite E in Hin.
  - intros E. by rewrite E in Hin.
Qed.

Lemma analyze_empty_domain_witness :
  analyze_email_domain (Some "user@") (Some "https://www.acme.com/x")
    = "Professional email - domain matches website ()".
Proof.
  exact (analyze_empty_domain "user" "" "https://www.acme.com/x"
           eq_refl (or_introl eq_refl) ltac:(discriminate) ltac:(discriminate)).
Defined.

End EmailFacts.

(** ** The scoring endpoint *)

Module ScoreFacts.

Import Web Api Parser ParserFacts.

(** The two ways a scoring request ends. *)
Lemma score_lead_cases env lead_id db :
  (∃ status detail, score_lead env lead_id db = (HTTPException status detail, db))
  ∨ (∃ lead key response_text,
       db !! lead_id = Some lead
       ∧ truthy_str (api_key env) = Some key
       ∧ model_call env key (prompt_of env lead) = inr response_text
       ∧ commit env = inr ()
       ∧ let p := parse_response response_text in
         score_lead env lead_id db =
           (Ok {| out_lead_id := lead_id;
                  out_score := score p;
                  out_justification := justification p;
                  out_next_action := next_action p;
                  out_website_analyzed :=
                    website_analyzed
                      (fetch_website_content (fetch env) (website lead)) |},
            <[lead_id := set_ai lead p]> db)).
Proof.
  unfold score_lead, prompt_of.
  destruct (db !! lead_id) as [lead|] eqn:Hlead; [|left; eauto].
  destruct (truthy_str (api_key env)) as [key|] eqn:Hkey; [|left; eauto].
  destruct (model_call env key _) as [e|response_text] eqn:Hcall;
    [left; cbn; eauto|].
  destruct (commit env) as [e|[]] eqn:Hcommit; [left; cbn; eauto|].
  right. exists lead, key, response_text. by rewrite Hcall.
Qed.

(** C1. The parser's score lies between 0 and 100 for every response
    text; so does the score that a successful scoring request returns,
    and that same score is the one stored on the lead. *)
Theorem score_in_range (response_text : string) (env : score_env)
    (lead_id : Z) (db : gmap Z Lead) :
  (0 ≤ score (parse_response response_text) ≤ 100)%Z
  ∧ match score_lead env lead_id db with
    | (Ok body, db') =>
        (0 ≤ out_score body ≤ 100)%Z
        ∧ ai_score <$> db' !! lead_id = Some (Some (out_score body))
    | (HTTPException _ _, _) => True
    end.
Proof.
  split; [apply clamp_range|].
  destruct (score_lead_cases env lead_id db)
    as [(status & detail & ->)|(lead & key & text & _ & _ & _ & _ & ->)];
    [done|].
  split; [apply clamp_range|]. by rewrite lookup_insert_eq.
Qed.

(** C2. A scoring request that ends in an error leaves the table as it
    was; one that succeeds replaces the lead by the same lead with its
    three scoring fields set to the values returned, in one update; and
    an exception from the model call or from the commit ends the request
    in an error. *)
Theorem score_lead_atomic (env : score_env) (lead_id : Z) (db : gmap Z Lead) :
  match score_lead env lead_id db with
  | (HTTPException _ _, db') => db' = db
  | (Ok body, db') =>
      ∃ lead lead',
        db !! lead_id = Some lead
        ∧ db' = <[lead_id := lead']> db
        ∧ clear_ai lead' = clear_ai lead
        ∧ ai_score lead' = Some (out_score body)
        ∧ ai_justification lead' = Some (out_justification body)
        ∧ ai_next_action lead' = Some (out_next_action body)
  end
  ∧ ∀ lead key,
      db !! lead_id = Some lead → truthy_str (api_key env) = Some key →
      (∀ e, model_call env key (prompt_of env lead) = inl e →
            score_lead env lead_id db
              = (HTTPException 500 ("Error scoring lead: " +:+ e), db))
      ∧ (∀ response_text e,
            model_call env key (prompt_of env lead) = inr response_text →
            commit env = inl e →
            score_lead env lead_id db
              = (HTTPException 500 ("Error scoring lead: " +:+ e), db)).
Proof.
  split.
  - destruct (score_lead_cases env lead_id db)
      as [(status & detail & ->)|(lead & key & text & Hlead & _ & _ & _ & ->)];
      [done|].
    by exists lead, (set_ai lead (parse_response text)).
  - intros lead key Hlead Hkey. unfold score_lead, prompt_of.
    rewrite Hlead, Hkey. split.
    + by intros e ->.
    + by intros text e -> ->.
Qed.

Lemma score_lead_atomic_witness :
  score_lead (env_with (inl "overloaded") (inr ())) 1 {[1 := acme]}
    = (HTTPException 500 "Error scoring lead: overloaded", {[1 := acme]})
  ∧ score_lead (env_with (inr "SCORE: 85") (inl "database is locked")) 1 {[1 := acme]}
    = (HTTPException 500 "Error scoring lead: database is locked", {[1 := acme]}).
Proof.
  split.
  - exact (proj1 (proj2 (score_lead_atomic
             (env_with (inl "overloaded") (inr ())) 1 {[1 := acme]})
             acme "sk-test" eq_refl eq_refl) "overloaded" eq_refl).
  - exact (proj2 (proj2 (score_lead_atomic
             (env_with (inr "SCORE: 85") (inl "database is locked")) 1 {[1 := acme]})
             acme "sk-test" eq_refl eq_refl) "SCORE: 85" "database is locked"
             eq_refl eq_refl).
Defined.

(** A scoring request that succeeds, on a reply in the required format
    whose score is out of range. *)
Example score_lead_success :
  let reply := "SCORE: 250" +:+ String newline
               ("JUSTIFICATION: Solid firm." +:+ String newline
                "NEXT_ACTION: Call Jane.") in
  score_lead (env_with (inr reply) (inr ())) 1 {[1 := acme]}
    = (Ok {| out_lead_id := 1;
             out_score := 100;
             out_justification := "Solid firm.";
             out_next_action := "Call Jane.";
             out_website_analyzed := false |},
       {[1 := set_ai acme {| score := 100;
                             justification := "Solid firm.";
                             next_action := "Call Jane." |}]}).
Proof. vm_compute. reflexivity. Qed.

End ScoreFacts.

(** ** The store *)

Module StoreFacts.

Import Web Api Parser PyFacts.

Lemma le_foldr_max (l : list Z) (k : Z) : k ∈ l → (k ≤ foldr Z.max 0 l)%Z.
Proof.
  induction l as [|x l IH]; intros H.
  - by apply elem_of_nil in H.
  - apply elem_of_cons in H as [->|H]; simpl; [lia|].
    specialize (IH H). lia.
Qed.

(** The key given to a new row is not in use. *)
Lemma next_id_fresh (db : gmap Z Lead) : db !! next_id db = None.
Proof.
  destruct (db !! next_id db) as [lead|] eqn:E; [|done].
  apply elem_of_map_to_list in E.
  assert (next_id db ∈ map fst (map_to_list db)) as Hin.
  { apply list_elem_of_fmap. by exists (next_id db, lead). }
  apply le_foldr_max in Hin. unfold next_id in Hin at 1. lia.
Qed.

(** Adding rows keeps every row that was there. *)
Lemma add_all_keeps leads (db : gmap Z Lead) id lead :
  db !! id = Some lead → add_all leads db !! id = Some lead.
Proof.
  revert db. induction leads as [|new leads IH]; intros db H; [done|].
  simpl. apply IH. rewrite lookup_insert_ne; [done|].
  intros E. rewrite <- E in H. by rewrite next_id_fresh in H.
Qed.

(** A row found after adding was there before, or is one of the rows
    added and sits under a key that was free. *)
Lemma add_all_lookup leads (db : gmap Z Lead) id lead :
  add_all leads db !! id = Some lead →
  db !! id = Some lead ∨ (db !! id = None ∧ lead ∈ leads).
Proof.
  revert db. induction leads as [|new leads IH]; intros db H; [by left|].
  simpl in H. apply IH in H as [H|[H Hin]].
  - destruct (decide (next_id db = id)) as [<-|Hne].
    + rewrite lookup_insert_eq in H. injection H as ->.
      right. split; [apply next_id_fresh|]. apply elem_of_cons. by left.
    + rewrite lookup_insert_ne in H by done. by left.
  - apply lookup_insert_None in H as [H _].
    right. split; [done|]. apply elem_of_cons. by right.
Qed.

Section Ingestion.

Variable str_title : string → string.

(** Every row of the file becomes a lead, with the scoring fields unset. *)
Lemma lead_of_row_unset row :
  ∃ lead, lead_of_row str_title row = inr lead ∧ ai_unset lead.
Proof.
  unfold lead_of_row.
  destruct (nonempty _ && str_in "@" _ && negb _).
  - destruct (index_split_0 "@" (row_contact_email row)) as [local ->].
    eexists. split; [reflexivity|]. by repeat split.
  - eexists. split; [reflexivity|]. by repeat split.
Qed.

Lemma mapM_lead_of_row_unset rows leads :
  mapM (lead_of_row str_title) rows = inr leads → Forall ai_unset leads.
Proof.
  revert leads. induction rows as [|row rows IH]; intros leads H.
  - injection H as <-. constructor.
  - simpl in H.
    destruct (lead_of_row_unset row) as (lead & E & Hunset).
    rewrite E in H. cbn [mbind exc_bind] in H.
    destruct (mapM (lead_of_row str_title) rows) as [e|leads'] eqn:E'; [done|].
    cbn [mbind exc_bind] in H. injection H as <-.
    constructor; [done|]. by apply IH.
Qed.

(** What an upload leaves committed: the table as it was, or the table
    with rows added whose scoring fields are unset. *)
Lemma upload_csv_store filename read commit (db : gmap Z Lead) :
  snd (upload_csv str_title filename read commit db) = db
  ∨ ∃ leads, Forall ai_unset leads
             ∧ snd (upload_csv str_title filename read commit db) = add_all leads db.
Proof.
  unfold upload_csv. destruct (negb _); [by left|].
  destruct read as [e|rows]; [by left|]. cbn [mbind exc_bind].
  destruct (mapM (lead_of_row str_title) rows) as [e|leads] eqn:E; [by left|].
  cbn [mbind exc_bind]. destruct commit as [e|[]]; [by left|].
  right. exists leads. split; [|done]. by apply (mapM_lead_of_row_unset rows).
Qed.

End Ingestion.

(** C8. The three scoring fields are written by the scoring request
    alone.  Every lead that ingestion creates has them unset; after any
    request other than scoring, a lead found in the table either was
    there unchanged or sits under a key that was free and has them
    unset; and a scoring request that succeeds replaces its lead by one
    that differs from it in those three fields only. *)
Theorem ai_fields_frame (str_title : string → string) :
  (∀ row, ∃ lead, lead_of_row str_title row = inr lead ∧ ai_unset lead)
  ∧ (∀ r (db : gmap Z Lead) id lead',
       is_scoring r = false →
       store_after str_title r db !! id = Some lead' →
       db !! id = Some lead' ∨ (db !! id = None ∧ ai_unset lead'))
  ∧ (∀ env lead_id (db db' : gmap Z Lead) body,
       score_lead env lead_id db = (Ok body, db') →
       ∃ lead lead',
         db !! lead_id = Some lead
         ∧ db' = <[lead_id := lead']> db
         ∧ clear_ai lead' = clear_ai lead).
Proof.
  split; [apply lead_of_row_unset|]. split.
  - intros r db id lead' Hr H.
    destruct r as [|filename read commit| | |lead_id| | |]; simpl in H;
      try discriminate Hr; try (by left).
    + destruct (upload_csv_store str_title filename read commit db)
        as [E|(leads & Hunset & E)]; rewrite E in H; [by left|].
      apply add_all_lookup in H as [H|[H Hin]]; [by left|].
      right. split; [done|].
      rewrite Forall_forall in Hunset. by apply Hunset.
    + unfold delete_lead in H. destruct (db !! lead_id) eqn:E; simpl in H.
      * apply lookup_delete_Some in H as [_ H]. by left.
      * by left.
  - intros env lead_id db db' body H.
    destruct (ScoreFacts.score_lead_cases env lead_id db)
      as [(status & detail & E)|(lead & key & text & Hlead & _ & _ & _ & E)];
      rewrite E in H; [done|].
    injection H as _ <-.
    by exists lead, (set_ai lead (parse_response text)).
Qed.

Lemma ai_fields_frame_witness :
  let row := {| row_company_name := "Acme Consulting"; row_location := "New York";
                row_industry := "Consulting"; row_website := "acme.com";
                row_contact_email := "nan"; row_notes := "nan" |} in
  let scored := set_ai acme {| score := 85; justification := "Solid firm.";
                               next_action := "Call Jane." |} in
  let db : gmap Z Lead := {[1 := scored]} in
  let db' := store_after id (UploadCsv "leads.csv" (inr [row]) (inr ())) db in
  (db' !! 1 = Some scored ∧ ∃ lead', db' !! 2 = Some lead' ∧ ai_unset lead')
  ∧ ∃ lead lead',
      ({[1 := acme]} : gmap Z Lead) !! 1 = Some lead
      ∧ ({[1 := set_ai acme {| score := 100; justification := "Solid firm.";
                               next_action := "Call Jane." |}]} : gmap Z Lead)
          = <[1 := lead']> ({[1 := acme]} : gmap Z Lead)
      ∧ clear_ai lead' = clear_ai lead.
Proof.
  intros row scored db db'. split.
  - destruct (ai_fields_frame id) as (_ & Hframe & _). split.
    + destruct (Hframe (UploadCsv "leads.csv" (inr [row]) (inr ())) db 1 scored
                  eq_refl eq_refl) as [H|[H _]]; [reflexivity|discriminate H].
    + destruct (db' !! 2) as [lead'|] eqn:E; [|discriminate E].
      exists lead'. split; [done|].
      destruct (Hframe (UploadCsv "leads.csv" (inr [row]) (inr ())) db 2 lead'
                  eq_refl E) as [H|[_ H]]; [discriminate H|exact H].
  - destruct (ai_fields_frame id) as (_ & _ & Hscore).
    exact (Hscore _ _ _ _ _ ScoreFacts.score_lead_success).
Defined.

(** C9. Clearing the table twice in a row: both calls return, the table
    is empty after each, the first reports the number of leads there
    were and the second reports 0. *)
Theorem clear_all_idempotent (db : gmap Z Lead) :
  let '(first, db1) := clear_all_leads db in
  let '(second, db2) := clear_all_leads db1 in
  db1 = ∅ ∧ db2 = ∅
  ∧ leads_deleted first = size db
  ∧ leads_deleted second = 0%nat
  ∧ cl_message second = "All 0 leads deleted successfully".
Proof. unfold clear_all_leads. by rewrite map_size_empty. Qed.

Section Listing.

Variable sql_contains : string → string → bool.

Lemma elem_of_query_filter cond (q : query) r :
  r ∈ query_filter cond q ↔ r ∈ q ∧ cond (snd r) = true.
Proof.
  unfold query_filter. rewrite !list_elem_of_In. apply filter_In.
Qed.


Lemma elem_of_get_leads ind loc min_score (db : gmap Z Lead) id lead :
  (id, lead) ∈ get_leads sql_contains ind loc min_score db
  ↔ db !! id = Some lead ∧ selected sql_contains ind loc min_score lead.
Proof.
  unfold get_leads, selected.
  destruct (truthy_str ind) as [pi|], (truthy_str loc) as [pl|],
    (truthy_int min_score) as [m|];
    rewrite ?elem_of_query_filter, elem_of_map_to_list;
    unfold where_industry, where_location, where_min_score; simpl;
    rewrite ?String.eqb_eq; (split; [intros H|intros (H & Hi & Hl & Hm)]);
    repeat match goal with
    | H : _ ∧ _ |- _ => destruct H
    | H : match ai_score lead with _ => _ end = true |- _ =>
        destruct (ai_score lead) as [s|] eqn:?; [apply Z.leb_le in H|discriminate H]
    end;
    repeat match goal with
    | |- _ ∧ _ => split
    | |- ∀ _, Some _ = Some _ → _ => intros ? [= <-]
    | |- ∀ _, None = Some _ → _ => intros ? [=]
    end; eauto.
  all: try (destruct (Hm m eq_refl) as (s & -> & ?); by apply Z.leb_le).
Qed.

End Listing.

End StoreFacts.

(** * Further properties *)

(** ** The website summary *)

Module SummaryFacts.

Import Web Shape PyFacts.

(** X1. A summary that the summarizer returns keeps its bounds: title at
    most 200 characters, description at most 300, key sections at most
    1000, text sample at most 1500; [has_content] tells whether the page
    text is longer than 100 characters, and when it is not the sample is
    the whole text. *)
Theorem summary_bounds (fetch : fetcher) (url : option string) (s : summary) :
  fetch_website_content fetch url = Some (Summary s) →
  (String.length (title s) ≤ 200)%nat
  ∧ (String.length (meta_description s) ≤ 300)%nat
  ∧ (String.length (key_sections s) ≤ 1000)%nat
  ∧ (String.length (full_text_sample s) ≤ 1500)%nat
  ∧ ∃ sc, fetch (url_analyzed s) = inr sc
          ∧ has_content s = (100 <? String.length (sc_text sc))%nat
          ∧ (has_content s = false → full_text_sample s = sc_text sc).
Proof.
  unfold fetch_website_content. destruct url as [url|]; [|done].
  destruct (negb (nonempty url) || _ || _); [done|].
  destruct (fetch (normalize_url url)) as [e|sc] eqn:E; [done|].
  cbn [mbind exc_bind mret exc_ret try_except]. intros [= <-].
  cbn [title meta_description key_sections full_text_sample has_content
       url_analyzed summarize].
  repeat split.
  - destruct (sc_title sc) as [t|]; [|simpl; lia].
    destruct (nonempty t); [apply length_take_le|simpl; lia].
  - destruct (nonempty (sc_meta_desc sc)); [apply length_take_le|simpl; lia].
  - apply length_take_le.
  - apply length_take_le.
  - exists sc. split; [done|]. split; [done|].
    intros H. apply Nat.ltb_ge in H. apply take_all. lia.
Qed.

Lemma summary_bounds_witness :
  let page := {| sc_text := "Acme Consulting: strategy for manufacturers.";
                 sc_title := Some "Acme";
                 sc_meta_desc := "";
                 sc_key_sections := [" About us"] |} in
  let s := summarize "https://acme.com" page in
  fetch_website_content (fun _ => inr page) (Some "acme.com") = Some (Summary s)
  ∧ (String.length (title s) ≤ 200)%nat
  ∧ has_content s = false
  ∧ full_text_sample s = sc_text page.
Proof.
  intros page s. split; [reflexivity|].
  destruct (summary_bounds (fun _ => inr page) (Some "acme.com") s eq_refl)
    as (Ht & _ & _ & _ & sc & Hsc & Hc & Hs).
  split; [exact Ht|]. split; [reflexivity|]. reflexivity.
Defined.

Lemma normalize_url_scheme url :
  startswith "http://" (normalize_url url)
  || startswith "https://" (normalize_url url) = true.
Proof.
  unfold normalize_url.
  destruct (startswith "http://" url || startswith "https://" url) eqn:E;
    [done|].
  apply orb_true_iff. right. reflexivity.
Qed.

(** X2. Every analysis the summarizer returns, summary or failure,
    carries a URL that starts with [http://] or [https://]: the input
    itself when it has one of the two schemes, and [https://] put before
    it otherwise.  Normalizing a normalized URL changes nothing. *)
Theorem analyzed_url_scheme (fetch : fetcher) (url : string)
    (w : website_analysis) :
  fetch_website_content fetch (Some url) = Some w →
  (startswith "http://" (url_of w) || startswith "https://" (url_of w) = true)
  ∧ url_of w = (if startswith "http://" url || startswith "https://" url
                then url else "https://" +:+ url)
  ∧ normalize_url (url_of w) = url_of w.
Proof.
  unfold fetch_website_content.
  destruct (negb (nonempty url) || _ || _); [done|].
  intros H.
  assert (url_of w = normalize_url url) as ->.
  { destruct (fetch (normalize_url url)) as [e|sc];
      cbn [mbind exc_bind mret exc_ret try_except] in H;
      by injection H as <-. }
  split; [apply normalize_url_scheme|]. split; [done|].
  unfold normalize_url at 1. by rewrite normalize_url_scheme.
Qed.

Lemma analyzed_url_scheme_witness :
  url_of (Failure "Could not fetch website: timed out" "https://acme.com")
    = "https://acme.com"
  ∧ normalize_url "https://acme.com" = "https://acme.com".
Proof.
  destruct (analyzed_url_scheme (fun _ => inl "timed out") "acme.com"
              (Failure "Could not fetch website: timed out" "https://acme.com")
              eq_refl) as (_ & Hurl & Hnorm).
  split; [exact Hurl|exact Hnorm].
Defined.

End SummaryFacts.

(** ** The shape of what the parser returns *)

Module ParserShape.

Import Parser Shape PyFacts ParserFacts.

Lemma join_cons_char c r rs :
  join " " (String c r :: rs) = String c (join " " (r :: rs)).
Proof. by destruct rs. Qed.

Lemma spaced_weaken s : spaced true s = true → spaced false s = true.
Proof.
  destruct s as [|c s]; [done|]. cbn [spaced].
  destruct (is_space c); [|done]. by rewrite andb_false_r.
Qed.

Lemma spaced_take b n s : spaced b s = true → spaced b (take n s) = true.
Proof.
  revert b s. induction n as [|n IH]; intros b [|c s]; try done.
  cbn [take spaced]. destruct (is_space c).
  - intros H. apply andb_true_iff in H as [H1 H2].
    rewrite H1. by apply IH.
  - apply IH.
Qed.

(** Collapsed text has single spaces only, and none in front. *)
Lemma spaced_collapse s : single_spaced (collapse s) = true.
Proof.
  unfold single_spaced, collapse, split_ws.
  induction s as [|c s IH]; [done|].
  cbn [runs]. destruct (is_space c) eqn:Hc; [done|]. cbn [negb].
  destruct (head_is _ s) eqn:Hs.
  - pose proof (head_is_runs _ _ Hs) as Hne.
    destruct (runs _ s) as [|r rs]; [done|].
    rewrite join_cons_char. cbn [spaced]. rewrite Hc.
    by apply spaced_weaken.
  - destruct (runs _ s) as [|r rs]; [cbn [join spaced]; by rewrite Hc|].
    change (join " " (String c "" :: r :: rs))
      with (String c (String " " (join " " (r :: rs)))).
    cbn [spaced]. rewrite Hc. exact IH.
Qed.

(** X3. Whatever the response, the justification returned has at most
    500 characters and the next action at most 300, and in both the only
    whitespace is the single space: no line break, no tab, no space in
    front and no two spaces in a row. *)
Theorem parse_output_shape (response_text : string) :
  let p := parse_response response_text in
  (String.length (justification p) ≤ 500)%nat
  ∧ (String.length (next_action p) ≤ 300)%nat
  ∧ single_spaced (justification p) = true
  ∧ single_spaced (next_action p) = true.
Proof.
  unfold parse_response. cbn [justification next_action].
  repeat split; try apply length_take_le;
    apply spaced_take, spaced_collapse.
Qed.

Lemma scan_line_score line rest st :
  st_score (scan_line line rest st)
    = match score_of_line line with
      | Some n => Some n
      | None => st_score st
      end.
Proof.
  unfold scan_line, score_of_line.
  destruct (startswith "SCORE:" line); [by destruct (findall_digits _)|].
  destruct (startswith "JUSTIFICATION:" line); [done|].
  by destruct (startswith "NEXT_ACTION:" line).
Qed.

Lemma scan_keeps_score ls st :
  forallb (fun l => bool_decide (score_of_line l = None)) ls = true →
  st_score (scan ls st) = st_score st.
Proof.
  revert st. induction ls as [|l ls IH]; intros st H; [done|].
  forallb_cons H Hl. apply bool_decide_eq_true in Hl.
  cbn [scan]. rewrite IH by done. by rewrite scan_line_score, Hl.
Qed.

End ParserShape.

(** ** A reply in the required format *)

Module ReplyFacts.

Import Parser Shape PyFacts ParserFacts ParserShape.

Lemma digit_nonspace c : is_digit c = true → nonspace c = true.
Proof. by destruct c as [[] [] [] [] [] [] [] []]. Qed.

Lemma all_chars_impl (p q : ascii → bool) s :
  (∀ c, p c = true → q c = true) → all_chars p s = true → all_chars q s = true.
Proof.
  intros Hpq. induction s as [|c s IH]; [done|]. cbn [all_chars].
  intros H. apply andb_true_iff in H as [Hc H].
  by rewrite (Hpq _ Hc), IH.
Qed.

(** A text of characters in [p] holds no text that starts outside [p]. *)
Lemma all_chars_not_in (p : ascii → bool) s c rest :
  all_chars p s = true → p c = false → str_in (String c rest) s = false.
Proof.
  intros Hs Hc. induction s as [|x s IH]; [done|].
  cbn [all_chars] in Hs. apply andb_true_iff in Hs as [Hx Hs].
  cbn [str_in startswith]. rewrite (IH Hs), orb_false_r.
  destruct (Ascii.eqb_spec c x) as [->|]; [congruence|done].
Qed.

Lemma str_in_cons_ne a r c s :
  Ascii.eqb a c = false → str_in (String a r) (String c s) = str_in (String a r) s.
Proof. intros H. cbn [str_in startswith]. by rewrite H. Qed.

Lemma str_in_char_app c x y :
  str_in (String c "") (x +:+ y) = str_in (String c "") x || str_in (String c "") y.
Proof.
  induction x as [|a x IH].
  - change ("" +:+ y) with y. by destruct y.
  - change (String a x +:+ y) with (String a (x +:+ y)).
    cbn [str_in startswith]. rewrite IH.
    destruct (Ascii.eqb c a); [done|]. by destruct x.
Qed.

Lemma rstrip_nonspace s : all_chars nonspace s = true → rstrip s = s.
Proof.
  induction s as [|c s IH]; [done|]. cbn [all_chars rstrip].
  intros H. apply andb_true_iff in H as [Hc H]. rewrite (IH H).
  apply negb_true_iff in Hc. rewrite Hc. by destruct s.
Qed.

Lemma rstrip_app_keep x y : rstrip y = y → y ≠ "" → rstrip (x +:+ y) = x +:+ y.
Proof.
  intros Hy Hne. induction x as [|c x IH]; [done|].
  change (String c x +:+ y) with (String c (x +:+ y)).
  cbn [rstrip]. rewrite IH.
  destruct (x +:+ y) eqn:E; [|done]. by destruct x, y.
Qed.

Lemma lstrip_head s : head_is nonspace s = true → lstrip s = s.
Proof.
  destruct s as [|c s]; [done|]. cbn [head_is lstrip].
  intros H. apply negb_true_iff in H. by rewrite H.
Qed.

(** A non-empty text of characters in [p] is one run. *)
Lemma runs_all p s :
  nonempty s = true → all_chars p s = true → runs p s = [s].
Proof.
  induction s as [|c s IH]; [done|]. intros _ H.
  cbn [all_chars] in H. apply andb_true_iff in H as [Hc H].
  cbn [runs]. rewrite Hc. destruct s as [|x s]; [done|].
  cbn [head_is]. cbn [all_chars] in H.
  pose proof H as H'. apply andb_true_iff in H' as [Hx _]. rewrite Hx.
  by rewrite IH.
Qed.

(** Each run is a non-empty text of characters in [p]. *)
Lemma runs_words p s :
  Forall (fun w => nonempty w = true ∧ all_chars p w = true) (runs p s).
Proof.
  induction s as [|c s IH]; [constructor|].
  cbn [runs]. destruct (p c) eqn:Hc; [|done].
  destruct (head_is p s).
  - destruct (runs p s) as [|r rs]; [by repeat constructor; cbn; rewrite ?Hc|].
    inversion IH as [|? ? [_ Hr] Hrs]; subst.
    constructor; [|done]. split; [done|]. cbn [all_chars]. by rewrite Hc.
  - constructor; [|done]. split; [done|]. cbn [all_chars]. by rewrite Hc.
Qed.

Lemma nonempty_join w ws : nonempty w = true → nonempty (join " " (w :: ws)) = true.
Proof. destruct w; [done|]. intros _. by rewrite join_cons_char. Qed.

Lemma rstrip_join ws :
  Forall (fun w => nonempty w = true ∧ all_chars nonspace w = true) ws →
  rstrip (join " " ws) = join " " ws.
Proof.
  induction 1 as [|w ws [Hne Hw] Hws IH]; [done|].
  destruct ws as [|w' ws]; [by apply rstrip_nonspace|].
  change (join " " (w :: w' :: ws)) with (w +:+ " " +:+ join " " (w' :: ws)).
  rewrite <- append_assoc. apply rstrip_app_keep; [done|].
  inversion Hws as [|? ? [Hne' _] _]; subst.
  pose proof (nonempty_join w' ws Hne') as Hj.
  intros E. by rewrite E in Hj.
Qed.

Lemma spaced_all_chars b s :
  spaced b s = true →
  all_chars (fun c => negb (is_space c) || Ascii.eqb c " ") s = true.
Proof.
  revert b. induction s as [|c s IH]; intros b; [done|].
  cbn [spaced all_chars]. destruct (is_space c).
  - intros H. apply andb_true_iff in H as [H H2].
    apply andb_true_iff in H as [H1 _]. rewrite H1. cbn. by eapply IH.
  - cbn. apply IH.
Qed.

(** What a normal text is: not empty, unchanged by collapsing, without a
    line break and without whitespace at its end. *)
Lemma normal_facts s :
  normal s = true →
  nonempty s = true ∧ collapse s = s
  ∧ str_in (String newline "") s = false ∧ rstrip s = s
  ∧ split_ws s ≠ [].
Proof.
  unfold normal. intros H. apply andb_true_iff in H as [Hne Hc].
  apply String.eqb_eq in Hc. repeat split; try done.
  - rewrite <- Hc.
    eapply all_chars_not_in; [apply (spaced_all_chars true), spaced_collapse|done].
  - rewrite <- Hc. apply rstrip_join, runs_words.
  - intros E. unfold collapse in Hc. rewrite E in Hc. by rewrite <- Hc in Hne.
Qed.

Lemma split_ws_nonempty s : split_ws s ≠ [] → nonempty s = true.
Proof. by destruct s. Qed.

(** The text behind a marker and a space, as the scan takes it up. *)
Lemma after_marker_space s :
  normal s = true →
  nonempty (strip (String " " s)) = true
  ∧ collapse (strip (String " " s)) = s.
Proof.
  intros Hs. destruct (normal_facts s Hs) as (_ & Hc & _ & _ & Hws).
  assert (split_ws (strip (String " " s)) = split_ws s) as E.
  { by rewrite split_ws_strip. }
  split.
  - apply split_ws_nonempty. by rewrite E.
  - unfold collapse. rewrite E. exact Hc.
Qed.

Lemma lines_of_reply d j a :
  all_chars is_digit d = true → normal j = true → normal a = true →
  lines_of (reply d j a)
    = ["SCORE: " +:+ d; "JUSTIFICATION: " +:+ j; "NEXT_ACTION: " +:+ a].
Proof.
  intros Hd Hj Ha.
  destruct (normal_facts j Hj) as (_ & _ & Hjnl & _ & _).
  destruct (normal_facts a Ha) as (Hane & _ & Hanl & Hastrip & _).
  unfold lines_of, strip.
  rewrite lstrip_head by done.
  assert (reply d j a
          = ("SCORE: " +:+ d +:+ NL +:+ "JUSTIFICATION: " +:+ j +:+ NL
             +:+ "NEXT_ACTION: ") +:+ a) as Hsplit.
  { unfold reply, text_of, join. fold NL. by rewrite !append_assoc. }
  rewrite Hsplit at 1. rewrite rstrip_app_keep;
    [|done|intros E; by rewrite E in Hane].
  rewrite <- Hsplit. unfold reply, text_of, join.
  change (("SCORE: " +:+ d) +:+ String newline "" +:+ ?r)
    with (("SCORE: " +:+ d) +:+ String newline r).
  rewrite split_app.
  2:{ rewrite str_in_char_app, orb_false_iff. split; [done|].
      by eapply all_chars_not_in. }
  change (("JUSTIFICATION: " +:+ j) +:+ String newline "" +:+ ?r)
    with (("JUSTIFICATION: " +:+ j) +:+ String newline r).
  rewrite split_app.
  2:{ rewrite str_in_char_app, orb_false_iff. by split. }
  rewrite split_absent; [done|].
  rewrite str_in_char_app, orb_false_iff. by split.
Qed.

Lemma score_of_digits d :
  nonempty d = true → all_chars is_digit d = true →
  score_of_line ("SCORE: " +:+ d) = Some (int d).
Proof.
  intros Hne Hd. unfold score_of_line.
  change (startswith "SCORE:" ("SCORE: " +:+ d)) with true. cbn iota.
  rewrite replace_prefix_once; [|done|done|].
  2:{ change (drop (String.length "SCORE:") ("SCORE: " +:+ d)) with (String " " d).
      rewrite str_in_cons_ne by done. by eapply all_chars_not_in. }
  change (drop (String.length "SCORE:") ("SCORE: " +:+ d)) with (String " " d).
  assert (strip (String " " d) = d) as ->.
  { unfold strip. change (lstrip (String " " d)) with (lstrip d).
    rewrite lstrip_head.
    - apply rstrip_nonspace. eapply all_chars_impl; [apply digit_nonspace|done].
    - destruct d as [|c d]; [done|]. cbn [head_is all_chars] in *.
      apply andb_true_iff in Hd as [Hc _]. by apply digit_nonspace. }
  unfold findall_digits. by rewrite runs_all.
Qed.

(** What the scan gathers from such a reply. *)
Lemma scan_reply (d j a : string) :
  nonempty d = true → all_chars is_digit d = true →
  normal j = true → normal a = true →
  str_in "JUSTIFICATION:" j = false → str_in "NEXT_ACTION:" a = false →
  scan (lines_of (reply d j a)) initial
    = {| st_score := Some (int d);
         st_justification := strip (String " " j);
         st_next_action := strip (String " " a) |}.
Proof.
  intros Hdne Hd Hj Ha Hjm Ham.
  rewrite lines_of_reply by done.
  set (sl := "SCORE: " +:+ d). set (jl := "JUSTIFICATION: " +:+ j).
  set (nl := "NEXT_ACTION: " +:+ a).
  assert (st_score (scan [sl; jl; nl] initial) = Some (int d)) as Hs.
  { destruct (scan_app_cons [] sl [jl; nl] initial) as [st' E].
    cbn [app] in E. rewrite E, scan_keeps_score by done.
    rewrite scan_line_score. unfold sl. by rewrite score_of_digits. }
  assert (st_justification (scan [sl; jl; nl] initial) = strip (String " " j)) as Hju.
  { rewrite (scan_justification_last [sl] jl [nl]) by done.
    rewrite replace_prefix_once; [done|done|done|].
    change (drop (String.length "JUSTIFICATION:") jl) with (String " " j).
    by rewrite str_in_cons_ne. }
  assert (st_next_action (scan [sl; jl; nl] initial) = strip (String " " a)) as Hna.
  { rewrite (scan_next_action_last [sl; jl] nl []) by done.
    rewrite replace_prefix_once; [done|done|done|].
    change (drop (String.length "NEXT_ACTION:") nl) with (String " " a).
    by rewrite str_in_cons_ne. }
  destruct (scan [sl; jl; nl] initial) as [s0 j0 n0].
  cbn [st_score st_justification st_next_action] in Hs, Hju, Hna. by subst.
Qed.

Lemma parse_reply (d j a : string) :
  nonempty d = true → all_chars is_digit d = true →
  normal j = true → normal a = true →
  str_in "JUSTIFICATION:" j = false → str_in "NEXT_ACTION:" a = false →
  (String.length j ≤ 500)%nat → (String.length a ≤ 300)%nat →
  parse_response (reply d j a)
    = {| score := Z.max 0 (Z.min 100 (int d));
         justification := j;
         next_action := a |}.
Proof.
  intros Hdne Hd Hj Ha Hjm Ham Hjlen Halen.
  destruct (after_marker_space j Hj) as [Hjne Hjc].
  destruct (after_marker_space a Ha) as [Hane Hac].
  unfold parse_response. rewrite scan_reply by done.
  cbn [st_score st_justification st_next_action].
  rewrite Hjne, Hane, Hjc, Hac. by rewrite !take_all.
Qed.

(** X5. A reply in the format the prompt asks for parses back to its
    parts: with a run of at most 4300 digits (the longest that [int()]
    converts) after [SCORE:] and, after
    [JUSTIFICATION:] and [NEXT_ACTION:], one-line texts in normal form
    (single spaces, no whitespace around) that are within the caps and do
    not hold their own marker, the parser returns that number brought
    into 0..100 and the two texts unchanged. *)
Theorem reply_round_trip (d j a : string) :
  nonempty d = true → all_chars is_digit d = true →
  (String.length d ≤ max_str_digits)%nat →
  normal j = true → normal a = true →
  str_in "JUSTIFICATION:" j = false → str_in "NEXT_ACTION:" a = false →
  (String.length j ≤ 500)%nat → (String.length a ≤ 300)%nat →
  parse_response (reply d j a)
    = {| score := Z.max 0 (Z.min 100 (int d));
         justification := j;
         next_action := a |}.
Proof.
  intros Hdne Hd _ Hj Ha Hjm Ham Hjlen Halen.
  destruct (normal_facts j Hj) as (_ & Hjc & _ & _ & Hjws).
  destruct (normal_facts a Ha) as (_ & Hac & _ & _ & Haws).
  unfold parse_response. rewrite scan_reply by done.
  cbn [st_score st_justification st_next_action].
  assert (∀ s, split_ws (strip (String " " s)) = split_ws s) as Hstrip
    by (intros s; by rewrite split_ws_strip).
  rewrite !(split_ws_nonempty (strip (String " " _))) by (by rewrite Hstrip).
  unfold collapse in *. rewrite !Hstrip, Hjc, Hac.
  by rewrite !take_all.
Qed.

Lemma reply_round_trip_witness :
  parse_response (reply "85" "Solid firm with case studies." "Call Jane on Monday.")
    = {| score := 85;
         justification := "Solid firm with case studies.";
         next_action := "Call Jane on Monday." |}.
Proof.
  exact (reply_round_trip "85" "Solid firm with case studies." "Call Jane on Monday."
           eq_refl eq_refl ltac:(unfold max_str_digits; cbn; lia)
           eq_refl eq_refl eq_refl eq_refl
           ltac:(cbn; lia) ltac:(cbn; lia)).
Defined.

End ReplyFacts.

(** ** More on the email analyzer *)

Module EmailMore.

Import Email Shape PyFacts EmailFacts.

(** An address with an [@] passes the guard. *)
Lemma given_address local rest :
  given (Some (local +:+ String "@" rest)) = Some (local +:+ String "@" rest).
Proof.
  assert (str_in "@" (local +:+ String "@" rest) = true) as Hin
    by by apply str_in_app_r.
  apply given_Some; intros E; by rewrite E in Hin.
Qed.

Lemma append_nil_r s : s +:+ "" = s.
Proof.
  induction s as [|c s IH]; [done|].
  change (String c s +:+ "") with (String c (s +:+ "")). by rewrite IH.
Qed.

(** The domain is the text between the first [@] and the next. *)
Lemma domain_field local domain more :
  str_in "@" local = false → str_in "@" domain = false →
  more = "" ∨ startswith "@" more = true →
  index (split "@" (local +:+ String "@" (domain +:+ more))) 1 = inr domain.
Proof.
  intros Hl Hd Hmore. rewrite (split_app _ _ _ Hl).
  destruct Hmore as [->|Hmore].
  - rewrite append_nil_r. by rewrite (split_absent _ _ Hd).
  - destruct more as [|c more]; [done|].
    change (Ascii.eqb "@" c && startswith "" more = true) in Hmore.
    apply andb_true_iff in Hmore as [Hc _]. apply Ascii.eqb_eq in Hc as <-.
    by rewrite (split_app _ _ _ Hd).
Qed.

Lemma domain_plain local domain :
  str_in "@" local = false → str_in "@" domain = false →
  index (split "@" (local +:+ String "@" domain)) 1 = inr domain.
Proof.
  intros Hl Hd.
  pose proof (domain_field local domain "" Hl Hd (or_introl eq_refl)) as E.
  by rewrite append_nil_r in E.
Qed.

(** X6. What follows a second [@] plays no part: the analysis of
    [local@domain@more] is the analysis of [local@domain], for every
    website. *)
Theorem second_at_ignored (local domain more : string) (website : option string) :
  str_in "@" local = false → str_in "@" domain = false →
  analyze_email_domain (Some (local +:+ String "@" (domain +:+ String "@" more))) website
    = analyze_email_domain (Some (local +:+ String "@" domain)) website.
Proof.
  intros Hl Hd. unfold analyze_email_domain. rewrite !given_address.
  unfold analyze_body.
  rewrite (domain_field local domain (String "@" more) Hl Hd) by (by right).
  pose proof (domain_plain local domain Hl Hd) as E.
  by rewrite E.
Qed.

Lemma second_at_ignored_witness :
  analyze_email_domain (Some "jane@acme.com@gmail.com") (Some "acme.com")
    = "Professional email - domain matches website (acme.com)".
Proof.
  exact (second_at_ignored "jane" "acme.com" "gmail.com" (Some "acme.com")
           eq_refl eq_refl).
Defined.

(** X7. An address whose domain, lower-cased, is one of the five generic
    providers is reported as generic under the lower-cased domain,
    whatever the case it was written in and whatever the website. *)
Theorem generic_domain_any_case (local domain : string) (website : option string) :
  str_in "@" local = false → str_in "@" domain = false →
  mem (lower domain) generic_domains = true →
  analyze_email_domain (Some (local +:+ String "@" domain)) website
    = "Generic email domain (" +:+ lower domain +:+ ") - less professional".
Proof.
  intros Hl Hd Hgen. unfold analyze_email_domain. rewrite given_address.
  unfold analyze_body.
  pose proof (domain_plain local domain Hl Hd) as E.
  rewrite E. cbn [mbind exc_bind]. by rewrite Hgen.
Qed.

Lemma generic_domain_any_case_witness :
  analyze_email_domain (Some "Jane.Doe@GMail.COM") (Some "https://www.acme.com")
    = "Generic email domain (gmail.com) - less professional".
Proof.
  exact (generic_domain_any_case "Jane.Doe" "GMail.COM"
           (Some "https://www.acme.com") eq_refl eq_refl eq_refl).
Defined.

(** X8. Without a website to compare with (none, the empty text or the
    placeholder ["nan"]), an address whose domain is not generic is
    reported as a professional domain, named in lower case. *)
Theorem professional_without_website (local domain : string)
    (website : option string) :
  str_in "@" local = false → str_in "@" domain = false →
  mem (lower domain) generic_domains = false →
  given website = None →
  analyze_email_domain (Some (local +:+ String "@" domain)) website
    = "Professional email domain (" +:+ lower domain +:+ ")".
Proof.
  intros Hl Hd Hgen Hw. unfold analyze_email_domain. rewrite given_address.
  unfold analyze_body.
  pose proof (domain_plain local domain Hl Hd) as E.
  rewrite E. cbn [mbind exc_bind]. by rewrite Hgen, Hw.
Qed.

Lemma professional_without_website_witness :
  analyze_email_domain (Some "jane@Acme.com") (Some "nan")
    = "Professional email domain (acme.com)".
Proof.
  exact (professional_without_website "jane" "Acme.com" (Some "nan")
           eq_refl eq_refl eq_refl eq_refl).
Defined.

(** *** Comparing with the website *)

Lemma startswith_has_char c sub t :
  startswith sub t = true →
  str_in (String c "") sub = true → str_in (String c "") t = true.
Proof.
  revert t. induction sub as [|a sub IH]; intros t Hs Hin; [done|].
  destruct t as [|b t]; [done|].
  cbn [startswith] in Hs. apply andb_true_iff in Hs as [Hab Hs].
  apply Ascii.eqb_eq in Hab as <-.
  cbn [str_in startswith] in Hin |- *.
  destruct (Ascii.eqb c a); [done|]. cbn [andb orb] in Hin |- *.
  by apply IH.
Qed.

(** A text without a character holds no text with that character. *)
Lemma absent_char_absent c sub s :
  str_in (String c "") sub = true →
  str_in (String c "") s = false → str_in sub s = false.
Proof.
  intros Hsub. induction s as [|x s IH]; intros Hs.
  - destruct sub; [done|done].
  - pose proof (str_in_cons _ _ _ Hs) as Hs'.
    cbn [str_in]. rewrite (IH Hs'), orb_false_r.
    destruct (startswith sub (String x s)) eqn:E; [|done].
    by rewrite (startswith_has_char c _ _ E Hsub) in Hs.
Qed.

Lemma replace_absent old s :
  old ≠ "" → str_in old s = false → replace old "" s = s.
Proof.
  intros Hold Hs. destruct old as [|a old]; [done|].
  by apply replace_from_absent.
Qed.

Lemma startswith_app p s : startswith p (p +:+ s) = true.
Proof.
  induction p as [|a p IH]; [done|].
  change (String a p +:+ s) with (String a (p +:+ s)).
  cbn [startswith]. by rewrite Ascii.eqb_refl.
Qed.

Lemma drop_app p s : drop (String.length p) (p +:+ s) = s.
Proof.
  induction p as [|a p IH]; [by destruct s|].
  change (String a p +:+ s) with (String a (p +:+ s)). apply IH.
Qed.

(** Removing [old] from a text that opens with it. *)
Lemma replace_prefix old s :
  old ≠ "" → replace old "" (old +:+ s) = replace old "" s.
Proof.
  intros Hold. destruct old as [|a old]; [done|]. unfold replace.
  change (String a old +:+ s) with (String a (old +:+ s)).
  cbn [replace_from].
  change (String a (old +:+ s)) with (String a old +:+ s).
  rewrite startswith_app. change ("" +:+ ?x) with x.
  rewrite replace_from_skip.
  change (String.length (String a old) - 1)%nat with (String.length old - 0)%nat.
  by rewrite Nat.sub_0_r, drop_app.
Qed.

Lemma str_in_cons_false sub c s :
  startswith sub (String c s) = false →
  str_in sub (String c s) = str_in sub s.
Proof. intros H. cbn [str_in]. by rewrite H. Qed.

Lemma no_http_in_https x :
  str_in "/" x = false → str_in "http://" ("https://" +:+ x) = false.
Proof.
  intros Hx.
  change ("https://" +:+ x)
    with (String "h" (String "t" (String "t" (String "p" (String "s"
           (String ":" (String "/" (String "/" x)))))))).
  rewrite !str_in_cons_false by reflexivity.
  by apply (absent_char_absent "/").
Qed.

(** Scheme and [www.] are taken off a plain host name. *)
Lemma website_clean_host scheme www host :
  In scheme [""; "http://"; "https://"] → In www [""; "www."] →
  str_in "/" host = false → str_in "www." host = false →
  index (split "/"
    (replace "www." "" (replace "https://" ""
      (replace "http://" "" (scheme +:+ www +:+ host))))) 0 = inr host.
Proof.
  intros Hscheme Hwww Hslash Hw.
  assert (str_in "/" (www +:+ host) = false) as Hx.
  { rewrite ReplyFacts.str_in_char_app, Hslash, orb_false_r.
    destruct Hwww as [<-|[<-|[]]]; done. }
  assert (replace "https://" "" (replace "http://" "" (scheme +:+ www +:+ host))
          = www +:+ host) as ->.
  { destruct Hscheme as [<-|[<-|[<-|[]]]].
    - change ("" +:+ www +:+ host) with (www +:+ host).
      rewrite (replace_absent "http://"), (replace_absent "https://");
        try done; by apply (absent_char_absent "/").
    - rewrite replace_prefix by done.
      rewrite (replace_absent "http://"), (replace_absent "https://");
        try done; by apply (absent_char_absent "/").
    - rewrite (replace_absent "http://");
        [|done|by apply no_http_in_https].
      rewrite replace_prefix by done.
      rewrite replace_absent; try done; by apply (absent_char_absent "/"). }
  assert (replace "www." "" (www +:+ host) = host) as ->.
  { destruct Hwww as [<-|[<-|[]]].
    - change ("" +:+ host) with host. by apply replace_absent.
    - rewrite replace_prefix by done. by apply replace_absent. }
  by rewrite (split_absent _ _ Hslash).
Qed.

(** X9. Against a website that is a plain host name, with or without
    [http://] or [https://] and [www.] in front, an address whose domain
    is not generic is reported as matching exactly when, in lower case,
    the domain lies within the host name or the host name within the
    domain, and as not matching otherwise. *)
Theorem domain_match_rule (scheme www host local domain : string) :
  In scheme [""; "http://"; "https://"] → In www [""; "www."] →
  nonempty host = true → host ≠ "nan" →
  str_in "/" host = false → str_in "www." host = false →
  str_in "@" local = false → str_in "@" domain = false →
  mem (lower domain) generic_domains = false →
  analyze_email_domain (Some (local +:+ String "@" domain))
                       (Some (scheme +:+ www +:+ host))
    = if str_in (lower domain) (lower host) || str_in (lower host) (lower domain)
      then "Professional email - domain matches website (" +:+ lower domain +:+ ")"
      else "Email domain (" +:+ lower domain +:+ ") doesn't match website".
Proof.
  intros Hscheme Hwww Hne Hnan Hslash Hw Hl Hd Hgen.
  unfold analyze_email_domain. rewrite given_address. unfold analyze_body.
  rewrite (domain_plain local domain Hl Hd). cbn [mbind exc_bind].
  rewrite Hgen.
  assert (given (Some (scheme +:+ www +:+ host)) = Some (scheme +:+ www +:+ host))
    as ->.
  { apply given_Some; intros E;
      destruct Hscheme as [<-|[<-|[<-|[]]]], Hwww as [<-|[<-|[]]];
      cbv [String.append] in E; try discriminate E;
      subst host; done. }
  rewrite website_clean_host by done. cbn [mbind exc_bind].
  by destruct (str_in (lower domain) (lower host) || str_in (lower host) (lower domain)).
Qed.

Lemma domain_match_rule_witness :
  analyze_email_domain (Some "jane@Mail.Acme.com") (Some "https://www.acme.com")
    = "Professional email - domain matches website (mail.acme.com)"
  ∧ analyze_email_domain (Some "jane@a.com") (Some "data.com")
    = "Professional email - domain matches website (a.com)"
  ∧ analyze_email_domain (Some "jane@acme.com") (Some "http://acme.org")
    = "Email domain (acme.com) doesn't match website".
Proof.
  split; [|split].
  - exact (domain_match_rule "https://" "www." "acme.com" "jane" "Mail.Acme.com"
             ltac:(right; right; by left) ltac:(right; by left)
             eq_refl ltac:(discriminate) eq_refl eq_refl eq_refl eq_refl eq_refl).
  - exact (domain_match_rule "" "" "data.com" "jane" "a.com"
             ltac:(by left) ltac:(by left)
             eq_refl ltac:(discriminate) eq_refl eq_refl eq_refl eq_refl eq_refl).
  - exact (domain_match_rule "http://" "" "acme.org" "jane" "acme.com"
             ltac:(right; by left) ltac:(by left)
             eq_refl ltac:(discriminate) eq_refl eq_refl eq_refl eq_refl eq_refl).
Defined.

End EmailMore.

(** ** More on the store *)

Module StoreMore.

Import Web Api Parser Shape PyFacts StoreFacts.

(** X10. Deleting a lead that is there answers with the success message
    and takes that one row away: the table has one lead fewer, the lead
    can no longer be read, every other lead reads as before, and
    deleting it again answers 404.  Deleting a lead that is not there
    answers 404 and leaves the table as it was. *)
Theorem delete_lead_effect (lead_id : Z) (db : gmap Z Lead) :
  let '(r, db') := delete_lead lead_id db in
  get_lead lead_id db' = HTTPException 404 "Lead not found"
  ∧ (∀ other, other ≠ lead_id → get_lead other db' = get_lead other db)
  ∧ delete_lead lead_id db' = (HTTPException 404 "Lead not found", db')
  ∧ match db !! lead_id with
    | Some _ => r = Ok "Lead deleted successfully" ∧ S (size db') = size db
    | None => r = HTTPException 404 "Lead not found" ∧ db' = db
    end.
Proof.
  unfold delete_lead, get_lead.
  destruct (db !! lead_id) as [lead|] eqn:E.
  - rewrite lookup_delete_eq. repeat split; try done.
    + intros other Hne. by rewrite lookup_delete_ne.
    + rewrite map_size_delete, E.
      assert (size db ≠ 0%nat); [|lia].
      intros Hz. apply map_size_empty_inv in Hz. by rewrite Hz in E.
  - rewrite E. by repeat split.
Qed.

Lemma size_add_all leads (db : gmap Z Lead) :
  size (add_all leads db) = (size db + length leads)%nat.
Proof.
  revert db. induction leads as [|lead leads IH]; intros db; [simpl; lia|].
  cbn [add_all length]. rewrite IH, map_size_insert_None by apply next_id_fresh.
  lia.
Qed.

Section Ingestion.

Variable str_title : string → string.

(** Every row becomes a lead: the loop does not raise. *)
Lemma mapM_lead_of_row_total rows :
  ∃ leads, mapM (lead_of_row str_title) rows = inr leads
           ∧ length leads = length rows.
Proof.
  induction rows as [|row rows (leads & E & Hlen)]; [by exists []|].
  destruct (lead_of_row_unset str_title row) as (lead & Hrow & _).
  exists (lead :: leads). cbn [mapM]. rewrite Hrow. cbn [mbind exc_bind].
  fold (mapM (lead_of_row str_title)). rewrite E. cbn [mbind exc_bind].
  split; [done|]. cbn [length]. by rewrite Hlen.
Qed.

Lemma mapM_lead_of_row_Forall (P : Lead → Prop) rows leads :
  (∀ row lead, lead_of_row str_title row = inr lead → P lead) →
  mapM (lead_of_row str_title) rows = inr leads → Forall P leads.
Proof.
  intros HP. revert leads. induction rows as [|row rows IH]; intros leads H.
  - injection H as <-. constructor.
  - cbn [mapM] in H. fold (mapM (lead_of_row str_title)) in H.
    destruct (lead_of_row str_title row) as [e|lead] eqn:E; [done|].
    cbn [mbind exc_bind] in H.
    destruct (mapM (lead_of_row str_title) rows) as [e|leads'] eqn:E'; [done|].
    cbn [mbind exc_bind] in H. injection H as <-.
    constructor; [by eapply HP|]. by apply IH.
Qed.

(** X11. An upload goes through as a whole or not at all.  A file name
    that does not end in [.csv] is refused with 400, a file that cannot
    be read and a commit that fails give 500 with the text of the
    exception, and in these cases the table is as before.  Otherwise
    every row becomes a lead: the answer counts the rows, the table has
    that many leads more, and every lead that was there is still there
    unchanged. *)
Theorem upload_csv_outcome (filename : string) (read : exc (list csv_row))
    (commit : exc unit) (db : gmap Z Lead) :
  let '(r, db') := upload_csv str_title filename read commit db in
  if negb (endswith ".csv" filename)
  then r = HTTPException 400 "File must be a CSV" ∧ db' = db
  else match read, commit with
       | inl e, _ | inr _, inl e =>
           r = HTTPException 500 ("Error processing CSV: " +:+ e) ∧ db' = db
       | inr rows, inr _ =>
           r = Ok {| up_message := "CSV uploaded successfully";
                     leads_added := length rows |}
           ∧ size db' = (size db + length rows)%nat
           ∧ ∀ id lead, db !! id = Some lead → db' !! id = Some lead
       end.
Proof.
  unfold upload_csv. destruct (negb (endswith ".csv" filename)); [done|].
  destruct read as [e|rows]; [done|]. cbn [mbind exc_bind].
  destruct (mapM_lead_of_row_total rows) as (leads & -> & Hlen).
  cbn [mbind exc_bind]. destruct commit as [e|[]]; [done|].
  cbn [mbind exc_bind mret exc_ret try_except]. rewrite Hlen.
  split; [done|]. split; [by rewrite size_add_all, Hlen|].
  intros id lead. apply add_all_keeps.
Qed.

Lemma clean_value_not_nan v : clean_value v ≠ "nan".
Proof. unfold clean_value. by destruct (String.eqb_spec v "nan"). Qed.

Lemma clean_value_keeps v : v ≠ "nan" → clean_value v = v.
Proof. unfold clean_value. by destruct (String.eqb_spec v "nan"). Qed.

(** The lead made from a row. *)
Lemma lead_of_row_fields row lead :
  lead_of_row str_title row = inr lead →
  company_name lead = clean_value (row_company_name row)
  ∧ industry lead = clean_value (row_industry row)
  ∧ location lead = clean_value (row_location row)
  ∧ contact_email lead = clean_value (row_contact_email row)
  ∧ website lead = Some (clean_value (row_website row))
  ∧ notes lead = Some (clean_value (row_notes row)).
Proof.
  unfold lead_of_row.
  destruct (nonempty _ && str_in "@" _ && negb _).
  - destruct (index_split_0 "@" (row_contact_email row)) as [local ->].
    cbn [mbind exc_bind mret exc_ret]. by intros [= <-].
  - cbn [mbind exc_bind mret exc_ret]. by intros [= <-].
Qed.

(** X12. The placeholder ["nan"] of an empty cell never reaches the
    table: in every lead that an upload adds, company name, industry,
    location, email, website and notes differ from ["nan"]. *)
Theorem upload_stores_no_placeholder (filename : string)
    (read : exc (list csv_row)) (commit : exc unit) (db : gmap Z Lead)
    (id : Z) (lead : Lead) :
  db !! id = None →
  snd (upload_csv str_title filename read commit db) !! id = Some lead →
  company_name lead ≠ "nan" ∧ industry lead ≠ "nan" ∧ location lead ≠ "nan"
  ∧ contact_email lead ≠ "nan"
  ∧ website lead ≠ Some "nan" ∧ notes lead ≠ Some "nan".
Proof.
  intros Hfree Hlead.
  set (P := fun lead : Lead =>
    company_name lead ≠ "nan" ∧ industry lead ≠ "nan" ∧ location lead ≠ "nan"
    ∧ contact_email lead ≠ "nan"
    ∧ website lead ≠ Some "nan" ∧ notes lead ≠ Some "nan").
  assert (∀ row l, lead_of_row str_title row = inr l → P l) as HP.
  { intros row l H. unfold P. apply lead_of_row_fields in H
      as (-> & -> & -> & -> & -> & ->).
    repeat split; try apply clean_value_not_nan;
      intros [= E]; by apply clean_value_not_nan in E. }
  revert Hlead. unfold upload_csv.
  destruct (negb _); [cbn; by rewrite Hfree|].
  destruct read as [e|rows]; [cbn; by rewrite Hfree|]. cbn [mbind exc_bind].
  destruct (mapM (lead_of_row str_title) rows) as [e|leads] eqn:E;
    [cbn; by rewrite Hfree|].
  cbn [mbind exc_bind]. destruct commit as [e|[]]; [cbn; by rewrite Hfree|].
  cbn [mbind exc_bind mret exc_ret try_except snd]. intros Hlead.
  apply add_all_lookup in Hlead as [Hlead|[_ Hin]]; [by rewrite Hfree in Hlead|].
  pose proof (mapM_lead_of_row_Forall P rows leads HP E) as Hall.
  rewrite Forall_forall in Hall. by apply Hall.
Qed.

(** X13. The contact name comes from the address alone: it is empty
    when the address holds no [@], and otherwise it is the part before
    the first [@] with its dots turned into spaces, title-cased. *)
Theorem contact_name_rule (row : csv_row) (lead : Lead) :
  lead_of_row str_title row = inr lead →
  (str_in "@" (row_contact_email row) = false → contact_name lead = "")
  ∧ (∀ local rest,
       row_contact_email row = local +:+ String "@" rest →
       str_in "@" local = false →
       contact_name lead = str_title (replace "." " " local)).
Proof.
  unfold lead_of_row. intros H. split.
  - intros Hat. rewrite Hat, andb_false_r in H.
    cbn [andb mbind exc_bind mret exc_ret] in H. by injection H as <-.
  - intros local rest Hemail Hlocal. rewrite Hemail in H.
    assert (str_in "@" (local +:+ String "@" rest) = true) as Hin
      by by apply str_in_app_r.
    rewrite Hin, (split_app _ _ _ Hlocal) in H.
    assert (nonempty (local +:+ String "@" rest) = true) as Hne
      by (by destruct local).
    assert ((local +:+ String "@" rest =? "nan")%string = false) as Hnan.
    { apply String.eqb_neq. intros E. by rewrite E in Hin. }
    rewrite Hne, Hnan in H.
    cbn [andb negb index mbind exc_bind mret exc_ret] in H.
    by injection H as <-.
Qed.

End Ingestion.

Lemma upload_stores_no_placeholder_witness :
  let row := {| row_company_name := "Acme"; row_location := "nan";
                row_industry := "nan"; row_website := "nan";
                row_contact_email := "nan"; row_notes := "nan" |} in
  ∃ lead, snd (upload_csv id "leads.csv" (inr [row]) (inr ()) ∅) !! 1 = Some lead
          ∧ location lead ≠ "nan" ∧ website lead ≠ Some "nan".
Proof.
  intros row.
  destruct (snd (upload_csv id "leads.csv" (inr [row]) (inr ()) ∅) !! 1)
    as [lead|] eqn:E; [|discriminate E].
  exists lead. split; [done|].
  destruct (upload_stores_no_placeholder id "leads.csv" (inr [row]) (inr ()) ∅
              1 lead (lookup_empty 1) E) as (_ & _ & Hloc & _ & Hweb & _).
  by split.
Defined.

Lemma contact_name_rule_witness :
  let row := {| row_company_name := "Acme"; row_location := "";
                row_industry := ""; row_website := "";
                row_contact_email := "jane.doe@acme.com"; row_notes := "" |} in
  ∃ lead, lead_of_row id row = inr lead ∧ contact_name lead = "jane doe".
Proof.
  intros row.
  destruct (lead_of_row id row) as [e|lead] eqn:E; [discriminate E|].
  exists lead. split; [done|].
  exact (proj2 (contact_name_rule id row lead E) "jane.doe" "acme.com"
           eq_refl eq_refl).
Defined.

(** X14. [GET /filters] lists each industry once and each location
    once: exactly the non-empty values found on the stored leads. *)
Theorem filter_options_exact (db : gmap Z Lead) :
  let options := get_filter_options db in
  NoDup (industries options) ∧ NoDup (locations options)
  ∧ (∀ i, i ∈ industries options
          ↔ i ≠ "" ∧ ∃ id lead, db !! id = Some lead ∧ industry lead = i)
  ∧ (∀ l, l ∈ locations options
          ↔ l ≠ "" ∧ ∃ id lead, db !! id = Some lead ∧ location lead = l).
Proof.
  assert (∀ (f : Lead → string) v,
    v ∈ List.filter nonempty (remove_dups (map f (map snd (map_to_list db))))
    ↔ v ≠ "" ∧ ∃ id lead, db !! id = Some lead ∧ f lead = v) as Hmem.
  { intros f v. rewrite list_elem_of_In, filter_In, <- list_elem_of_In.
    rewrite elem_of_remove_dups. split.
    - intros [Hin Hne]. split; [by destruct v|].
      apply list_elem_of_fmap in Hin as (lead & -> & Hin).
      apply list_elem_of_fmap in Hin as ([id lead'] & -> & Hin).
      apply elem_of_map_to_list in Hin. by exists id, lead'.
    - intros [Hne (id & lead & Hdb & <-)]. split; [|by destruct (f lead)].
      apply list_elem_of_fmap. exists lead. split; [done|].
      apply list_elem_of_fmap. exists (id, lead). split; [done|].
      by apply elem_of_map_to_list. }
  assert (∀ l : list string, NoDup (List.filter nonempty (remove_dups l))) as Hnd.
  { intros l. rewrite NoDup_ListNoDup. apply List.NoDup_filter.
    rewrite <- NoDup_ListNoDup. apply NoDup_remove_dups. }
  cbn [get_filter_options industries locations].
  split; [apply Hnd|]. split; [apply Hnd|]. split; intros v; apply Hmem.
Qed.

(** X15. Without parameters [GET /leads] returns every stored lead: as
    many as the table holds, and a lead is listed under an id exactly
    when [GET /leads/{id}] returns it.  Parameters can only take leads
    out of that list. *)
Theorem get_leads_unfiltered (sql_contains : string → string → bool)
    (db : gmap Z Lead) :
  length (get_leads sql_contains None None None db) = size db
  ∧ (∀ id lead, (id, lead) ∈ get_leads sql_contains None None None db
                ↔ get_lead id db = Ok (id, lead))
  ∧ (∀ ind loc min_score r,
       r ∈ get_leads sql_contains ind loc min_score db →
       r ∈ get_leads sql_contains None None None db).
Proof.
  split; [apply length_map_to_list|]. split.
  - intros id lead. unfold get_leads, get_lead. cbn.
    rewrite elem_of_map_to_list.
    destruct (db !! id) as [lead'|]; [|done].
    split; [by intros [= ->]|by intros [= ->]].
  - intros ind loc min_score [id lead] H.
    apply elem_of_get_leads in H as [H _].
    apply elem_of_get_leads. split; [done|]. by repeat split.
Qed.

(** X16. Raising [min_score] can only shorten the list: with the other
    parameters kept, every lead listed under the higher bound is listed
    under the lower one. *)
Theorem get_leads_min_score_monotone (sql_contains : string → string → bool)
    (ind loc : option string) (m m' : Z) (db : gmap Z Lead) (r : Z * Lead) :
  (m ≤ m')%Z → m' ≠ 0 →
  r ∈ get_leads sql_contains ind loc (Some m') db →
  r ∈ get_leads sql_contains ind loc (Some m) db.
Proof.
  intros Hle Hm'. destruct r as [id lead].
  rewrite !elem_of_get_leads. intros (Hdb & Hi & Hl & Hs).
  split; [done|]. repeat split; try done.
  intros n Hn.
  assert (truthy_int (Some m') = Some m') as Ht.
  { unfold truthy_int. by destruct (Z.eqb_spec m' 0). }
  destruct (Hs m' Ht) as (s & Hscore & Hms). exists s. split; [done|].
  unfold truthy_int in Hn. destruct (Z.eqb_spec m 0); [done|].
  injection Hn as <-. lia.
Qed.

Lemma get_leads_min_score_monotone_witness :
  let scored := set_ai acme {| score := 85; justification := "";
                               next_action := "" |} in
  (1, scored) ∈ get_leads substring_match None None (Some 50) {[1 := scored]}.
Proof.
  intros scored.
  apply (get_leads_min_score_monotone substring_match None None 50 80
           {[1 := scored]} (1, scored)); [lia|done|].
  apply elem_of_get_leads. split; [by simplify_map_eq|].
  repeat split; try done.
  intros m [= <-]. exists 85. split; [done|lia].
Defined.

(** X17. After [DELETE /clear-all] nothing is left to read: every
    listing is empty whatever the parameters, the filter options are
    empty, and reading or deleting any id answers 404. *)
Theorem cleared_store_is_empty (sql_contains : string → string → bool)
    (db : gmap Z Lead) (ind loc : option string) (min_score : option Z)
    (lead_id : Z) :
  let db' := snd (clear_all_leads db) in
  get_leads sql_contains ind loc min_score db' = []
  ∧ get_filter_options db' = {| industries := []; locations := [] |}
  ∧ get_lead lead_id db' = HTTPException 404 "Lead not found"
  ∧ delete_lead lead_id db' = (HTTPException 404 "Lead not found", db').
Proof.
  cbn [clear_all_leads snd]. split; [|split; [|done]].
  - unfold get_leads. rewrite map_to_list_empty.
    by destruct (truthy_str ind), (truthy_str loc), (truthy_int min_score).
  - unfold get_filter_options. by rewrite map_to_list_empty.
Qed.

End StoreMore.

(** ** More on the scoring endpoint *)

Module ScoreMore.

Import Web Api Parser Shape PyFacts ScoreFacts StoreFacts.

(** X18. The prompt is made from six columns of the lead (company,
    industry, location, contact name, email, website) and from nothing
    else of it: two leads that agree on these get the same prompt, and a
    lead scored before gets the prompt it got the first time. *)
Theorem prompt_ignores_other_columns (env : score_env) (lead1 lead2 : Lead)
    (p : parsed) :
  (prompt_fields lead1 = prompt_fields lead2 →
   prompt_of env lead1 = prompt_of env lead2)
  ∧ prompt_of env (set_ai lead1 p) = prompt_of env lead1.
Proof.
  split; [|done].
  unfold prompt_fields, prompt_of, Prompt.build_prompt, Prompt.header.
  by intros [= -> -> -> -> -> ->].
Qed.

Lemma prompt_ignores_other_columns_witness :
  let other :=
    {| company_name := company_name acme; industry := industry acme;
       location := location acme; contact_name := contact_name acme;
       contact_email := contact_email acme; contact_phone := "555 0100";
       revenue := Some "10M"; employees := None; website := website acme;
       notes := Some "Referred by a client."; ai_score := Some 40;
       ai_justification := None; ai_next_action := None |} in
  prompt_of (env_with (inr "") (inr ())) acme
    = prompt_of (env_with (inr "") (inr ())) other.
Proof.
  intros other.
  exact (proj1 (prompt_ignores_other_columns (env_with (inr "") (inr ()))
                  acme other {| score := 0; justification := "";
                                next_action := "" |}) eq_refl).
Defined.

(** X19. Once a lead is scored, [GET /leads] with a [min_score] other
    than zero lists it exactly when the score returned reaches
    [min_score]. *)
Theorem scored_lead_listed (sql_contains : string → string → bool)
    (env : score_env) (lead_id : Z) (db db' : gmap Z Lead)
    (body : score_result) (m : Z) :
  score_lead env lead_id db = (Ok body, db') → m ≠ 0 →
  (∃ lead, (lead_id, lead) ∈ get_leads sql_contains None None (Some m) db')
  ↔ (m ≤ out_score body)%Z.
Proof.
  intros H Hm.
  destruct (score_lead_cases env lead_id db)
    as [(status & detail & E)|(lead & key & text & Hlead & _ & _ & _ & E)];
    rewrite E in H; [done|]. injection H as <- <-.
  cbn [out_score].
  assert (truthy_int (Some m) = Some m) as Ht.
  { unfold truthy_int. by destruct (Z.eqb_spec m 0). }
  split.
  - intros [l Hin]. apply elem_of_get_leads in Hin as [Hl (_ & _ & Hs)].
    rewrite lookup_insert_eq in Hl. injection Hl as <-.
    by destruct (Hs m Ht) as (s & [= <-] & Hle).
  - intros Hle. exists (set_ai lead (parse_response text)).
    apply elem_of_get_leads. split; [by rewrite lookup_insert_eq|].
    repeat split; try done.
    intros m' Hm'. rewrite Ht in Hm'. injection Hm' as <-. by eexists.
Qed.

Lemma scored_lead_listed_witness :
  let env := env_with (inr "SCORE: 85") (inr ()) in
  let db : gmap Z Lead := {[1 := acme]} in
  ∃ lead, (1, lead) ∈ get_leads substring_match None None (Some 80)
                        (snd (score_lead env 1 db)).
Proof.
  intros env db.
  destruct (score_lead env 1 db) as [r db'] eqn:E.
  destruct r as [body|status detail]; [|discriminate E].
  apply (scored_lead_listed substring_match env 1 db db' body 80 E);
    [done|].
  injection E as <- _. by vm_compute.
Defined.

(** X20. In the answer of a scoring request, [website_analyzed] is true
    exactly when the lead has a website, other than the empty text and
    ["nan"], and fetching and parsing it raised nothing. *)
Theorem website_analyzed_flag (env : score_env) (lead_id : Z)
    (db db' : gmap Z Lead) (body : score_result) :
  score_lead env lead_id db = (Ok body, db') →
  ∃ lead, db !! lead_id = Some lead
    ∧ (out_website_analyzed body = true
       ↔ ∃ url sc, website lead = Some url ∧ url ≠ "" ∧ url ≠ "nan"
                   ∧ fetch env (normalize_url url) = inr sc).
Proof.
  intros H.
  destruct (score_lead_cases env lead_id db)
    as [(status & detail & E)|(lead & key & text & Hlead & _ & _ & _ & E)];
    rewrite E in H; [done|]. injection H as <- _.
  exists lead. split; [done|]. cbn [out_website_analyzed].
  unfold fetch_website_content.
  destruct (website lead) as [url|]; [|split; [done|by intros (? & ? & ? & _)]].
  destruct (String.eqb_spec url "nan") as [->|Hnan].
  { split; [done|]. by intros (? & ? & [= <-] & _ & ? & _). }
  destruct (String.eqb_spec url "") as [->|Hempty].
  { split; [done|]. by intros (? & ? & [= <-] & ? & _). }
  assert (nonempty url = true) as -> by (by destruct url).
  cbn [negb orb].
  destruct (fetch env (normalize_url url)) as [e|sc] eqn:Hf;
    cbn [mbind exc_bind mret exc_ret try_except website_analyzed].
  - split; [done|]. intros (u & sc & [= <-] & _ & _ & Hsc). by rewrite Hf in Hsc.
  - split; [|done]. intros _. by exists url, sc.
Qed.

Lemma website_analyzed_flag_witness :
  let page := {| sc_text := "Acme Consulting"; sc_title := Some "Acme";
                 sc_meta_desc := ""; sc_key_sections := [] |} in
  let env := {| api_key := Some "sk-test"; fetch := fun _ => inr page;
                model_call := fun _ _ => inr "SCORE: 85"; commit := inr () |} in
  ∃ url sc, website acme = Some url ∧ url ≠ "" ∧ url ≠ "nan"
            ∧ fetch env (normalize_url url) = inr sc.
Proof.
  intros page env.
  destruct (score_lead env 1 {[1 := acme]}) as [r db'] eqn:E.
  destruct r as [body|status detail]; [|discriminate E].
  destruct (website_analyzed_flag env 1 {[1 := acme]} db' body E)
    as (lead & Hlead & Hflag).
  injection Hlead as <-. apply Hflag.
  injection E as <- _. reflexivity.
Defined.

(** X21. A reply in the required format ends up on the lead as it was
    written: when the model answers with a number of at most 4300
    digits after [SCORE:] and normal one-line texts after the two other
    markers, and the commit
    goes through, the request answers with that number brought into
    0..100 and the two texts, and stores the same three values on the
    lead. *)
Theorem score_lead_stores_reply (env : score_env) (lead_id : Z)
    (db : gmap Z Lead) (lead : Lead) (key d j a : string) :
  db !! lead_id = Some lead →
  truthy_str (api_key env) = Some key →
  model_call env key (prompt_of env lead) = inr (reply d j a) →
  commit env = inr () →
  nonempty d = true → all_chars is_digit d = true →
  (String.length d ≤ max_str_digits)%nat →
  normal j = true → normal a = true →
  str_in "JUSTIFICATION:" j = false → str_in "NEXT_ACTION:" a = false →
  (String.length j ≤ 500)%nat → (String.length a ≤ 300)%nat →
  ∃ body lead',
    score_lead env lead_id db = (Ok body, <[lead_id := lead']> db)
    ∧ out_score body = Z.max 0 (Z.min 100 (int d))
    ∧ out_justification body = j ∧ out_next_action body = a
    ∧ ai_score lead' = Some (Z.max 0 (Z.min 100 (int d)))
    ∧ ai_justification lead' = Some j ∧ ai_next_action lead' = Some a.
Proof.
  intros Hlead Hkey Hcall Hcommit Hdne Hd _ Hj Ha Hjm Ham Hjlen Halen.
  destruct (score_lead_cases env lead_id db)
    as [(status & detail & E)|(lead0 & key0 & text & Hlead0 & Hkey0 & Hcall0 & _ & E)].
  - exfalso. revert E. unfold score_lead, prompt_of in *.
    rewrite Hlead, Hkey, Hcall. cbn [mbind exc_bind]. rewrite Hcommit.
    cbn. discriminate.
  - rewrite Hlead in Hlead0. injection Hlead0 as <-.
    rewrite Hkey in Hkey0. injection Hkey0 as <-.
    rewrite Hcall in Hcall0. injection Hcall0 as <-.
    rewrite E. cbn zeta.
    rewrite (ReplyFacts.parse_reply d j a) by done.
    eexists _, _. split; [reflexivity|]. by repeat split.
Qed.

Lemma score_lead_stores_reply_witness :
  let answer := reply "85" "Solid firm." "Call Jane." in
  ∃ body lead',
    score_lead (env_with (inr answer) (inr ())) 1 {[1 := acme]}
      = (Ok body, <[1 := lead']> {[1 := acme]})
    ∧ out_score body = 85
    ∧ out_justification body = "Solid firm." ∧ out_next_action body = "Call Jane."
    ∧ ai_score lead' = Some 85
    ∧ ai_justification lead' = Some "Solid firm."
    ∧ ai_next_action lead' = Some "Call Jane.".
Proof.
  intros answer.
  exact (score_lead_stores_reply (env_with (inr answer) (inr ())) 1
           {[1 := acme]} acme "sk-test" "85" "Solid firm." "Call Jane."
           eq_refl eq_refl eq_refl eq_refl eq_refl eq_refl
           ltac:(unfold max_str_digits; cbn; lia)
           eq_refl eq_refl eq_refl eq_refl ltac:(cbn; lia) ltac:(cbn; lia)).
Defined.

End ScoreMore.

(** ** The prompt *)

Module PromptFacts.

Import Web Api Shape PyFacts.

Lemma startswith_app_l sub x b :
  startswith sub x = true → startswith sub (x +:+ b) = true.
Proof.
  revert x. induction sub as [|a sub IH]; intros x H; [done|].
  destruct x as [|c x]; [done|].
  change (String c x +:+ b) with (String c (x +:+ b)).
  cbn [startswith] in H |- *. apply andb_true_iff in H as [-> H].
  by apply IH.
Qed.

Lemma str_in_app_l sub a b : str_in sub a = true → str_in sub (a +:+ b) = true.
Proof.
  induction a as [|c a IH]; intros H.
  - destruct sub; [apply str_in_empty|done].
  - change (String c a +:+ b) with (String c (a +:+ b)).
    cbn [str_in] in H |- *. apply orb_true_iff in H as [H|H].
    + pose proof (startswith_app_l _ _ b H) as H'.
      change (String c a +:+ b) with (String c (a +:+ b)) in H'. by rewrite H'.
    + rewrite (IH H). apply orb_true_r.
Qed.

Lemma startswith_refl s : startswith s s = true.
Proof. induction s as [|c s IH]; [done|]. cbn [startswith]. by rewrite Ascii.eqb_refl. Qed.

Lemma str_in_refl s : str_in s s = true.
Proof. destruct s as [|c s]; [done|]. cbn [str_in]. by rewrite startswith_refl. Qed.

(** Looks for the text among the pieces of a concatenation. *)
Ltac find_piece :=
  first [ apply str_in_refl
        | apply str_in_app_l; apply str_in_refl
        | apply str_in_app_l; apply str_in_app_r; apply str_in_refl
        | apply str_in_app_r; find_piece ].

(** X22. What the two analyses found reaches the model: the prompt holds
    the email analysis; after a failed fetch it holds the error message;
    after a fetch that went through it holds the URL analysed, the title,
    the description, the key sections and the text sample. *)
Theorem prompt_carries_analyses (lead : Lead) (email_analysis : string)
    (website_analysis : option website_analysis) :
  let prompt := Prompt.build_prompt lead email_analysis website_analysis in
  str_in email_analysis prompt = true
  ∧ match website_analysis with
    | Some (Failure error _) => str_in error prompt = true
    | Some (Summary s) =>
        str_in (url_analyzed s) prompt = true
        ∧ str_in (title s) prompt = true
        ∧ str_in (meta_description s) prompt = true
        ∧ str_in (key_sections s) prompt = true
        ∧ str_in (full_text_sample s) prompt = true
    | None => str_in "NO WEBSITE PROVIDED" prompt = true
    end.
Proof.
  unfold Prompt.build_prompt. split.
  - apply str_in_app_l. unfold Prompt.header, text_of. cbn [join]. find_piece.
  - destruct website_analysis as [[s|error url]|];
      unfold Prompt.website_section, text_of; cbn [join];
      repeat split; apply str_in_app_r, str_in_app_l; try find_piece.
    by vm_compute.
Qed.

End PromptFacts.

(** ** The listing on the SQLite store *)

Module SqliteFacts.

Import Api Shape Sqlite PyFacts StoreFacts.







End SqliteFacts.

(** ** Where the score comes from *)

Module ScoreLine.

Import Parser Shape PyFacts ParserFacts ParserShape.

Section Runs.

Variable p : ascii → bool.
Hypothesis p_nonspace : ∀ c, p c = true → is_space c = false.

Lemma space_outside c : is_space c = true → p c = false.
Proof.
  intros Hc. destruct (p c) eqn:E; [|done].
  by rewrite (p_nonspace _ E) in Hc.
Qed.

Lemma runs_lstrip s : runs p (lstrip s) = runs p s.
Proof.
  induction s as [|c s IH]; [done|].
  cbn [lstrip]. destruct (is_space c) eqn:Hc; [|done].
  rewrite IH. cbn [runs]. by rewrite (space_outside _ Hc).
Qed.

Lemma rstrip_empty_runs s : rstrip s = "" → runs p s = [] ∧ head_is p s = false.
Proof.
  induction s as [|c s IH]; [done|]. cbn [rstrip].
  destruct (rstrip s); [|done].
  destruct (is_space c) eqn:Hc; [|done]. intros _.
  cbn [runs head_is]. rewrite (space_outside _ Hc).
  split; [|done]. by apply IH.
Qed.

Lemma rstrip_keeps_head s c r :
  rstrip s = String c r → head_is p (rstrip s) = head_is p s.
Proof.
  destruct s as [|x s]; [done|]. cbn [rstrip].
  destruct (rstrip s); [|done]. by destruct (is_space x).
Qed.

Lemma runs_rstrip s : runs p (rstrip s) = runs p s.
Proof.
  induction s as [|c s IH]; [done|]. cbn [rstrip].
  destruct (rstrip s) as [|y r] eqn:E.
  - destruct (rstrip_empty_runs s E) as [Hnil Hh].
    destruct (is_space c) eqn:Hc.
    + cbn [runs]. by rewrite (space_outside _ Hc), Hnil.
    + cbn [runs head_is]. by rewrite Hh, Hnil.
  - pose proof (rstrip_keeps_head s y r E) as Hhead. rewrite E in Hhead.
    clear E. revert Hhead IH. generalize (String y r). intros t Hhead IH.
    cbn [runs]. by rewrite Hhead, IH.
Qed.

(** Stripping a text leaves its runs as they are. *)
Lemma runs_strip s : runs p (strip s) = runs p s.
Proof. unfold strip. by rewrite runs_rstrip, runs_lstrip. Qed.

Lemma runs_none s : all_chars (fun c => negb (p c)) s = true → runs p s = [].
Proof.
  induction s as [|c s IH]; [done|]. cbn [all_chars runs].
  intros H. apply andb_true_iff in H as [Hc H]. apply negb_true_iff in Hc.
  rewrite Hc. by apply IH.
Qed.

End Runs.

Lemma digit_not_space c : is_digit c = true → is_space c = false.
Proof. by destruct c as [[] [] [] [] [] [] [] []]. Qed.

Lemma all_chars_replace_from (q : ascii → bool) old k s :
  all_chars q s = true → all_chars q (replace_from old "" k s) = true.
Proof.
  revert k. induction s as [|c s IH]; intros k H; [done|].
  cbn [all_chars] in H. apply andb_true_iff in H as [Hc H].
  cbn [replace_from]. destruct k as [|k]; [|by apply IH].
  destruct (startswith old (String c s)).
  - change ("" +:+ ?x) with x. by apply IH.
  - cbn [all_chars]. by rewrite Hc, IH.
Qed.

(** A line that does not open with [SCORE:], or holds no digit, gives no
    score. *)
Lemma score_of_line_none l :
  negb (startswith "SCORE:" l) || no_digit l = true → score_of_line l = None.
Proof.
  unfold score_of_line. destruct (startswith "SCORE:" l); [|done].
  cbn [negb orb]. intros H. unfold findall_digits.
  rewrite (runs_strip _ digit_not_space), runs_none; [done|].
  by apply all_chars_replace_from.
Qed.

Lemma scan_score_none ls st :
  forallb (fun l => negb (startswith "SCORE:" l) || no_digit l) ls = true →
  st_score (scan ls st) = st_score st.
Proof.
  revert st. induction ls as [|l ls IH]; intros st H; [done|].
  forallb_cons H Hl. cbn [scan]. rewrite IH by done.
  by rewrite scan_line_score, (score_of_line_none _ Hl).
Qed.

(** A line that opens with [SCORE:], once: its score is the first run
    of digits behind the marker. *)
Lemma score_of_line_first rest n more :
  str_in "SCORE:" rest = false → findall_digits rest = n :: more →
  score_of_line ("SCORE:" +:+ rest) = Some (int n).
Proof.
  intros Honce Hruns. unfold score_of_line.
  change (startswith "SCORE:" ("SCORE:" +:+ rest)) with true. cbn iota.
  rewrite replace_prefix_once; [|done|done|done].
  change (drop (String.length "SCORE:") ("SCORE:" +:+ rest)) with rest.
  unfold findall_digits in *.
  by rewrite (runs_strip _ digit_not_space), Hruns.
Qed.

(** X4. The score is decided by the last line that opens with [SCORE:]
    and holds a digit.  When [SCORE:] does not come again inside that
    line, the score is the first run of digits behind the marker, read
    as a number and brought into 0..100; the run has at most 4300
    digits, the longest that [int()] converts, and no line before it is
    longer than that, so that no conversion raises.  Later [SCORE:] lines without a
    digit do not reset it, and what stands before the digits (a minus
    sign, words) is passed over. *)
Theorem score_from_last_number (response_text : string)
    (pre post : list string) (rest n : string) (more : list string) :
  lines_of response_text = (pre ++ ("SCORE:" +:+ rest) :: post)%list →
  forallb (fun l => (String.length l <=? max_str_digits)%nat) pre = true →
  str_in "SCORE:" rest = false →
  findall_digits rest = n :: more →
  (String.length n ≤ max_str_digits)%nat →
  forallb (fun l => negb (startswith "SCORE:" l) || no_digit l) post = true →
  score (parse_response response_text) = Z.max 0 (Z.min 100 (int n)).
Proof.
  intros Hlines _ Honce Hruns _ Hpost. unfold parse_response. cbn [score].
  rewrite Hlines.
  destruct (scan_app_cons pre ("SCORE:" +:+ rest) post initial) as [st' ->].
  rewrite scan_score_none by done.
  by rewrite scan_line_score, (score_of_line_first rest n more).
Qed.

Lemma score_from_last_number_witness :
  score (parse_response
           (text_of ["Here it is."; "SCORE: -85/100"; "SCORE: unchanged"]))
    = 85.
Proof.
  exact (score_from_last_number
           (text_of ["Here it is."; "SCORE: -85/100"; "SCORE: unchanged"])
           ["Here it is."] ["SCORE: unchanged"] " -85/100" "85" ["100"]
           eq_refl eq_refl eq_refl eq_refl
           ltac:(unfold max_str_digits; cbn; lia) eq_refl).
Defined.

(** The marker inside the line joins the digits on its two sides. *)
Example score_marker_inside_line :
  score (parse_response "SCORE: 1SCORE:2") = 12.
Proof. reflexivity. Qed.

End ScoreLine.

(** ** When the defaults apply *)

Module ParserDefaults.

Import Parser Shape PyFacts ParserFacts ParserShape ScoreLine.

Lemma lstrip_blank s : blank s = true → lstrip s = "".
Proof.
  unfold blank. induction s as [|c s IH]; [done|]. cbn [all_chars lstrip].
  intros H. apply andb_true_iff in H as [Hc H]. rewrite Hc. by apply IH.
Qed.

Lemma strip_blank s : blank s = true → strip s = "".
Proof. intros H. unfold strip. by rewrite lstrip_blank. Qed.

(** A marker with nothing but whitespace behind it gathers nothing from
    its own line. *)
Lemma marker_alone marker line c :
  marker ≠ "" → head_is (fun x => Ascii.eqb x c) marker = true →
  is_space c = false →
  startswith marker line = true → blank (after_prefix marker line) = true →
  strip (replace marker "" line) = "".
Proof.
  intros Hm Hhead Hc Hstart Hblank.
  rewrite replace_prefix_once; [by apply strip_blank|done|done|].
  destruct marker as [|x marker]; [done|].
  cbn [head_is] in Hhead. apply Ascii.eqb_eq in Hhead as ->.
  by eapply ReplyFacts.all_chars_not_in.
Qed.

(** C3 as stated fails.  A response whose one line is [SCORE: 75] behind
    a space holds no line that starts with a marker, and its score is
    75: the parser strips the response before it takes the lines.  And a
    [JUSTIFICATION:] line that yields nothing, with a blank line behind
    it, does not bring the default: the justification comes back empty. *)
Lemma parse_defaults_counterexample :
  (forallb unmarked (split newline " SCORE: 75") = true
   ∧ score (parse_response " SCORE: 75") = 75
   ∧ score (parse_response " SCORE: 75") ≠ 50)
  ∧ (let text := text_of ["JUSTIFICATION:"; ""; "NEXT_ACTION: Call."] in
     justification (parse_response text) = ""
     ∧ justification (parse_response text) ≠ collapse (take 400 text)).
Proof. by repeat split. Qed.

(** C3, amended.  The lines are those of the response once the
    whitespace around it is stripped.  When none of them opens with
    [SCORE:], [JUSTIFICATION:] or [NEXT_ACTION:], the parser returns the
    score 50, the first 400 characters of the raw response with
    whitespace collapsed, and the fixed next action.  Each default also
    applies on its own: the score is 50 when no line that opens with
    [SCORE:] holds a digit; the justification is the default when no
    line opens with [JUSTIFICATION:], or when the last such line has
    only whitespace behind the marker and is the last line or has a
    [NEXT_ACTION:] line right behind it; the next action is the default
    when no line opens with [NEXT_ACTION:], or when the last line is
    such a line with only whitespace behind the marker. *)
Theorem parse_defaults_by_input (response_text : string) :
  (forallb unmarked (lines_of response_text) = true →
   parse_response response_text =
     {| score := 50;
        justification := collapse (take 400 response_text);
        next_action := "Review lead and determine outreach strategy" |})
  ∧ (forallb (fun l => negb (startswith "SCORE:" l) || no_digit l)
       (lines_of response_text) = true →
     score (parse_response response_text) = 50)
  ∧ (none_opens "JUSTIFICATION:" (lines_of response_text) = true →
     justification (parse_response response_text)
       = collapse (take 400 response_text))
  ∧ (none_opens "NEXT_ACTION:" (lines_of response_text) = true →
     next_action (parse_response response_text)
       = "Review lead and determine outreach strategy")
  ∧ (∀ pre line post,
       lines_of response_text = (pre ++ line :: post)%list →
       startswith "JUSTIFICATION:" line = true →
       blank (after_prefix "JUSTIFICATION:" line) = true →
       none_opens "JUSTIFICATION:" post = true →
       before_next_action post = [] →
       justification (parse_response response_text)
         = collapse (take 400 response_text))
  ∧ (∀ pre line,
       lines_of response_text = (pre ++ [line])%list →
       startswith "NEXT_ACTION:" line = true →
       blank (after_prefix "NEXT_ACTION:" line) = true →
       next_action (parse_response response_text)
         = "Review lead and determine outreach strategy").
Proof.
  unfold parse_response.
  split; [|split; [|split; [|split; [|split]]]].
  - intros H. rewrite (scan_unmarked _ _ H). unfold initial.
    cbn [st_score st_justification st_next_action nonempty].
    by rewrite take_collapse_400.
  - intros H. cbn [score]. by rewrite scan_score_none.
  - intros H. cbn [justification]. rewrite scan_keeps_justification by done.
    cbn [initial st_justification nonempty]. apply take_collapse_400.
  - intros H. cbn [next_action]. by rewrite scan_keeps_next_action.
  - intros pre line post Hlines Hline Hblank Hpost Hnone. cbn [justification].
    rewrite Hlines, scan_justification_last by done.
    rewrite absorb_until_before, Hnone. cbn [absorb_all].
    rewrite (marker_alone "JUSTIFICATION:" line "J") by done.
    cbn [nonempty]. apply take_collapse_400.
  - intros pre line Hlines Hline Hblank. cbn [next_action].
    rewrite Hlines, scan_next_action_last by done.
    cbn [absorb_all].
    by rewrite (marker_alone "NEXT_ACTION:" line "N").
Qed.

Lemma parse_defaults_by_input_witness :
  (forallb unmarked (lines_of "The lead looks fine.") = true
   ∧ parse_response "The lead looks fine." =
       {| score := 50;
          justification := "The lead looks fine.";
          next_action := "Review lead and determine outreach strategy" |})
  ∧ score (parse_response (text_of ["SCORE: high"; "JUSTIFICATION: ok"])) = 50
  ∧ justification (parse_response "SCORE: 70") = "SCORE: 70"
  ∧ next_action (parse_response "SCORE: 70")
      = "Review lead and determine outreach strategy"
  ∧ justification (parse_response (text_of ["JUSTIFICATION: "; "NEXT_ACTION: Call."]))
      = "JUSTIFICATION: NEXT_ACTION: Call."
  ∧ next_action (parse_response (text_of ["SCORE: 70"; "NEXT_ACTION:"]))
      = "Review lead and determine outreach strategy".
Proof.
  split; [split; [reflexivity|]|split; [|split; [|split; [|split]]]].
  - exact (proj1 (parse_defaults_by_input "The lead looks fine.") eq_refl).
  - exact (proj1 (proj2 (parse_defaults_by_input
             (text_of ["SCORE: high"; "JUSTIFICATION: ok"]))) eq_refl).
  - exact (proj1 (proj2 (proj2 (parse_defaults_by_input "SCORE: 70"))) eq_refl).
  - exact (proj1 (proj2 (proj2 (proj2 (parse_defaults_by_input "SCORE: 70"))))
             eq_refl).
  - exact (proj1 (proj2 (proj2 (proj2 (proj2 (parse_defaults_by_input
             (text_of ["JUSTIFICATION: "; "NEXT_ACTION: Call."]))))))
             [] "JUSTIFICATION: " ["NEXT_ACTION: Call."]
             eq_refl eq_refl eq_refl eq_refl eq_refl).
  - exact (proj2 (proj2 (proj2 (proj2 (proj2 (parse_defaults_by_input
             (text_of ["SCORE: 70"; "NEXT_ACTION:"]))))))
             ["SCORE: 70"] "NEXT_ACTION:" eq_refl eq_refl eq_refl).
Defined.

End ParserDefaults.
